(** * log-path: configuration store, correlation registry and log emission

    A shallow embedding of the TypeScript sources of the log-path library
    (the [ConfigService] of services/config.service, the [LogPath]
    decorator with its log functions, [initLogPath], shared/default-config
    and types/log-level.type) and the properties of its specification that
    were checked against it.

    JavaScript values are embedded as data ([JsVal]); code that can throw
    returns a [Completion]; code that reads or writes the process-wide state
    (the static configuration, the WeakMap of contexts, the console, the host
    clock and the uuid generator) passes a [World] explicitly. *)

From stdpp Require Import base option list gmap strings pretty.
From Stdlib Require Import ZArith.

#[local] Set Warnings "-register-all".
#[local] Open Scope string_scope.

(** ** JavaScript values *)

(** Plain data as the library can receive it from an untyped caller.  Numbers
    are the integral ones; functions, accessors and proxies are not part of
    the model.  An array is an object too: besides its elements it may carry
    named own properties ([Object.assign([], {k: v})]). *)
Inductive JsVal : Type :=
  | JUndefined
  | JNull
  | JBool (b : bool)
  | JNum (z : Z)
  | JStr (s : string)
  | JObject (props : gmap string JsVal)
  | JArray (elems : list JsVal) (props : gmap string JsVal).

(** What a [throw] carries: an instance of [Error] (its [name] and
    [message]), or any other value. *)
Inductive Thrown : Type :=
  | ErrorObject (name message : string)
  | ThrownValue (v : JsVal).

(** The outcome of evaluating code that may throw. *)
Inductive Completion (A : Type) : Type :=
  | Normal (a : A)
  | Abrupt (e : Thrown).
Arguments Normal {A} a.
Arguments Abrupt {A} e.

#[global] Instance Completion_ret : MRet Completion := fun A a => Normal a.
#[global] Instance Completion_bind : MBind Completion := fun A B f c =>
  match c with
  | Normal a => f a
  | Abrupt e => Abrupt e
  end.

Module Js.

(** A TypeError raised by the engine itself; the message text differs
    between engines and is left empty. *)
Definition TypeError : Thrown := ErrorObject "TypeError" "".

(** [typeof v] *)
Definition typeof (v : JsVal) : string :=
  match v with
  | JUndefined => "undefined"
  | JNull => "object"
  | JBool _ => "boolean"
  | JNum _ => "number"
  | JStr _ => "string"
  | JObject _ => "object"
  | JArray _ _ => "object"
  end.

(** ToBoolean, as used by [if], [&&], [||] and [?:]. *)
Definition truthy (v : JsVal) : bool :=
  match v with
  | JUndefined | JNull => false
  | JBool b => b
  | JNum z => negb (z =? 0)%Z
  | JStr s => negb (String.eqb s "")
  | JObject _ | JArray _ _ => true
  end.

(** [a || b] *)
Definition or_else (a b : JsVal) : JsVal := if truthy a then a else b.

(** [a === b].  Primitives compare by value.  Two objects compare by
    reference, which plain data does not record: they are taken to be
    distinct.  The sources only compare against string literals and the
    validated [logMode] strings. *)
Definition strict_eq (a b : JsVal) : bool :=
  match a, b with
  | JUndefined, JUndefined => true
  | JNull, JNull => true
  | JBool x, JBool y => Bool.eqb x y
  | JNum x, JNum y => (x =? y)%Z
  | JStr x, JStr y => String.eqb x y
  | _, _ => false
  end.

(** [Array.isArray(v)] *)
Definition isArray (v : JsVal) : bool :=
  match v with
  | JArray _ _ => true
  | _ => false
  end.

(** [arr.includes(v)] for an array literal of strings. *)
Definition includes (arr : list string) (v : JsVal) : bool :=
  existsb (fun s => strict_eq (JStr s) v) arr.

(** Reading a named field of a plain object: [undefined] when absent. *)
Definition prop (o : gmap string JsVal) (k : string) : JsVal :=
  default JUndefined (o !! k).

(** [v.k] for the named (non-index, non-inherited) keys the sources read:
    a TypeError on [undefined] and [null], [undefined] on the other
    primitives, the own property otherwise. *)
Definition get (v : JsVal) (k : string) : Completion JsVal :=
  match v with
  | JUndefined | JNull => Abrupt TypeError
  | JBool _ | JNum _ | JStr _ => Normal JUndefined
  | JObject props => Normal (prop props k)
  | JArray _ props => Normal (prop props k)
  end.

(** The characters of a string as one-character strings. *)
Definition chars (s : string) : list JsVal :=
  (fun c => JStr (String c EmptyString)) <$> String.list_ascii_of_string s.

(** The properties under the index keys "0", "1", ... *)
Definition indexed (l : list JsVal) : gmap string JsVal :=
  list_to_map (imap (fun (i : nat) x => (pretty i, x)) l).

(** The own enumerable properties of [v]: what [...v] contributes inside
    an object literal (nothing for [undefined], [null], booleans and
    numbers). *)
Definition own_enumerable (v : JsVal) : gmap string JsVal :=
  match v with
  | JUndefined | JNull | JBool _ | JNum _ => ∅
  | JStr s => indexed (chars s)
  | JObject props => props
  | JArray elems props => indexed elems ∪ props
  end.

(** [{ ...target, ...v }]: later properties win. *)
Definition spread (target : gmap string JsVal) (v : JsVal) : gmap string JsVal :=
  own_enumerable v ∪ target.

(** What [...v] contributes inside an array literal: the elements of an
    array, the characters of a string, a TypeError for anything that is
    not iterable. *)
Definition iterate (v : JsVal) : Completion (list JsVal) :=
  match v with
  | JArray elems _ => Normal elems
  | JStr s => Normal (chars s)
  | _ => Abrupt TypeError
  end.

(** [arr.every(f)] on a list of elements: stops at the first element for
    which [f] is false, and throws what [f] throws. *)
Fixpoint every_elems (f : JsVal → Completion bool) (l : list JsVal) : Completion bool :=
  match l with
  | [] => Normal true
  | x :: l' =>
      b ← f x;
      if b : bool then every_elems f l' else Normal false
  end.

(** [v.every(f)]: only arrays have the method. *)
Definition every (v : JsVal) (f : JsVal → Completion bool) : Completion bool :=
  match v with
  | JArray elems _ => every_elems f elems
  | _ => Abrupt TypeError
  end.

End Js.

(** ** types/log-level.type *)

Inductive LogLevel : Type := debug | info | warn | error.

Definition LogLevel_values : list string := ["debug"; "info"; "warn"; "error"].

Definition LogLevel_str (l : LogLevel) : string :=
  match l with
  | debug => "debug"
  | info => "info"
  | warn => "warn"
  | error => "error"
  end.

(** [LogLevel.indexOf(logLevel) !== -1] *)
Definition isValidLogLevel (logLevel : JsVal) : bool :=
  Js.includes LogLevel_values logLevel.

(** ** shared/default-config *)

Definition DEFAULT_CONFIG : gmap string JsVal :=
  {[ "devMode" := JBool true;
     "logMode" := JStr "single";
     "endpoint" := JStr "http://default-endpoint.com" ]}.

(** ** Process-wide state *)

(** interfaces/context.interface, [ProcessContext]:
    [{ processId: string, parentId?: string }] *)
Record ProcessContext : Type := mkContext {
  processId : string;
  parentId : option string
}.

Inductive Action : Type := Enter | Exit | Error.

(** interfaces/log-path.interface, [LogData]. *)
Record LogData : Type := mkLogData {
  ld_processId : string;
  ld_parentId : option string;
  ld_logLevel : LogLevel;
  ld_className : string;
  ld_methodName : string;
  ld_action : Action;
  ld_timestamp : Z;
  ld_message : string;
  ld_error : option string;
  ld_args : option (list JsVal)
}.

(** What the library does to the outside: a line on the console, or a
    request written to an endpoint ([https.request], of which the sources
    keep the commented-out use in [sendLog] only). *)
Inductive Effect : Type :=
  | ConsoleLog (line : string)
  | ConsoleError (text : string) (e : Thrown)
  | HttpsRequest (hostname : string) (body : LogData).

(** The receiver [this] of an instrumented method: the identity of the
    object the method is invoked on, which is what the WeakMap is keyed
    by. *)
Abbreviation Owner := positive.

Record World : Type := mkWorld {
  config : gmap string JsVal;              (* ConfigService.config *)
  contexts : gmap Owner ProcessContext;    (* the WeakMap [contexts] *)
  uuid_calls : nat;                        (* calls of uuidv4() so far *)
  clock_reads : nat;                       (* readings of the clock so far *)
  effects : list Effect                    (* output so far, oldest first *)
}.

Definition set_config (c : gmap string JsVal) (w : World) : World :=
  mkWorld c (contexts w) (uuid_calls w) (clock_reads w) (effects w).

Definition set_contexts (m : gmap Owner ProcessContext) (w : World) : World :=
  mkWorld (config w) m (uuid_calls w) (clock_reads w) (effects w).

Definition emit (e : Effect) (w : World) : World :=
  mkWorld (config w) (contexts w) (uuid_calls w) (clock_reads w) (effects w ++ [e]).

(** The state of a freshly loaded module. *)
Definition initial_world : World := mkWorld DEFAULT_CONFIG ∅ 0 0 [].

(** ** services/config.service: [ConfigService] *)

Module ConfigService.

(** [getConfig()] *)
Definition getConfig (w : World) : gmap string JsVal := config w.

(** The callback of [every] in [validateConfig]:
    [({ logLevel, endpoint }) => isValidLogLevel(logLevel) && typeof endpoint === 'string'].
    Destructuring [undefined] or [null] throws. *)
Definition validEndpointParam (param : JsVal) : Completion bool :=
  logLevel ← Js.get param "logLevel";
  endpoint ← Js.get param "endpoint";
  mret (isValidLogLevel logLevel && String.eqb (Js.typeof endpoint) "string").

(** [validateConfig(config)].  In the last branch [cfg] is [config]
    itself, so [Array.isArray] is asked of the whole configuration
    object.  The two fields of the first condition are read up front: a
    read throws on [undefined] and [null] only, where the first one
    throws already. *)
Definition validateConfig (config : JsVal) : Completion bool :=
  devMode ← Js.get config "devMode";
  logMode ← Js.get config "logMode";
  if negb (String.eqb (Js.typeof devMode) "boolean")
     || negb (String.eqb (Js.typeof logMode) "string")
     || negb (Js.includes ["single"; "multiple"] logMode)
  then mret false
  else if Js.strict_eq logMode (JStr "single") then
    endpoint ← Js.get config "endpoint";
    mret (String.eqb (Js.typeof endpoint) "string")
  else
    let cfg := config in
    if Js.isArray cfg then
      endpointParams ← Js.get cfg "endpointParams";
      Js.every endpointParams validEndpointParam
    else mret false.

(** [mergeConfig(existingConfig, newConfig)] *)
Definition mergeConfig (existingConfig : gmap string JsVal) (newConfig : JsVal)
  : Completion (gmap string JsVal) :=
  newLogMode ← Js.get newConfig "logMode";
  if Js.truthy newLogMode
     && negb (Js.strict_eq newLogMode (Js.prop existingConfig "logMode"))
  then
    (* logMode is changing: the endpoint configuration is reset *)
    reset ←
      (if Js.strict_eq newLogMode (JStr "single") then
         endpoint ← Js.get newConfig "endpoint";
         mret ({[ "endpoint" :=
                    Js.or_else endpoint (Js.prop DEFAULT_CONFIG "endpoint") ]}
               : gmap string JsVal)
       else
         endpointParams ← Js.get newConfig "endpointParams";
         mret ({[ "endpointParams" := Js.or_else endpointParams (JArray [] ∅) ]}
               : gmap string JsVal));
    mret (Js.spread (Js.spread (Js.spread ∅ (JObject existingConfig)) newConfig)
            (JObject reset))
  else
    added ←
      (if Js.strict_eq (Js.prop existingConfig "logMode") (JStr "multiple")
          && negb (Js.strict_eq newLogMode (JStr "single"))
       then
         existing ← Js.iterate (Js.prop existingConfig "endpointParams");
         endpointParams ← Js.get newConfig "endpointParams";
         incoming ← Js.iterate (Js.or_else endpointParams (JArray [] ∅));
         mret ({[ "endpointParams" := JArray (existing ++ incoming) ∅ ]}
               : gmap string JsVal)
       else mret (∅ : gmap string JsVal));
    mret (Js.spread (Js.spread (Js.spread ∅ (JObject existingConfig)) newConfig)
            (JObject added)).

Definition invalid_config : Thrown :=
  ErrorObject "Error" "Failed to set config, invalid config".

(** [setConfig(config)]: the static [config] is assigned only when
    neither validation nor merging throws. *)
Definition setConfig (config : JsVal) (w : World) : Completion unit * World :=
  match validateConfig config with
  | Abrupt e => (Abrupt e, w)
  | Normal isValid =>
      if negb isValid then (Abrupt invalid_config, w)
      else
        match mergeConfig (getConfig w) config with
        | Abrupt e => (Abrupt e, w)
        | Normal merged => (Normal tt, set_config merged w)
        end
  end.

End ConfigService.

(** ** [initLogPath] *)

(** [initLogPath(params)]: a failure of [setConfig] is caught and written to
    the error console. *)
Definition initLogPath (params : JsVal) (w : World) : World :=
  match ConfigService.setConfig params w with
  | (Normal _, w') => w'
  | (Abrupt e, w') => emit (ConsoleError "Failed to initialize log path" e) w'
  end.

(** A run of [setConfig] calls, one per element, each call caught or not:
    the resulting state. *)
Definition setConfig_all (calls : list JsVal) (w : World) : World :=
  foldl (fun w c => snd (ConfigService.setConfig c w)) w calls.

(** ** The host: what the platform and the [uuid] package provide *)

(** The decorator calls into its host for identifiers, for the time and for
    string conversions.  [uuidv4_nth n] is what the (n+1)-th call of
    [uuidv4()] returns and [clock_nth n] what the (n+1)-th reading of the
    clock returns, in milliseconds since the epoch. *)
Class Host : Type := mkHost {
  uuidv4_nth : nat → string;
  clock_nth : nat → Z;
  toISOString : Z → string;                (* Date.prototype.toISOString *)
  JSON_stringify : list JsVal → string;    (* JSON.stringify of an array *)
  String_of : JsVal → string               (* String(v) *)
}.

(** [LogPathOptions] of interfaces/log-path.interface; every field is
    optional. *)
Record LogPathOptions : Type := mkOptions {
  o_isTopLevel : option bool;
  o_logInputs : option bool;
  o_isSensitive : option bool;
  o_logLevel : option LogLevel
}.

Definition Action_str (a : Action) : string :=
  match a with
  | Enter => "Enter"
  | Exit => "Exit"
  | Error => "Error"
  end.

(** What the wrapped method does when applied: it returns a value, throws,
    or returns a promise (named by a handle) that settles later. *)
Inductive MethodResult : Type :=
  | Value (v : JsVal)
  | Throws (e : Thrown)
  | PromiseOf (p : nat).

(** A method body: the receiver, the arguments and the state it runs in. *)
Definition Method : Type := Owner → list JsVal → World → MethodResult * World.

(** What the decorated method gives back to its caller.  In the
    asynchronous case this is the promise
    [result.then(onFulfilled).catch(onRejected).finally(onFinally)]. *)
Inductive CallResult : Type :=
  | Returned (v : JsVal)
  | Threw (e : Thrown)
  | Chained (p : nat)
      (onFulfilled : JsVal → World → Completion JsVal * World)
      (onRejected : Thrown → World → Completion JsVal * World)
      (onFinally : World → World).

(** ** The [LogPath] decorator and its log functions *)

Section Decorator.
Context `{Host}.

(** [uuidv4()] *)
Definition uuidv4 (w : World) : string * World :=
  (uuidv4_nth (uuid_calls w),
   mkWorld (config w) (contexts w) (S (uuid_calls w)) (clock_reads w) (effects w)).

(** [Date.now()], and the instant of [new Date()]. *)
Definition Date_now (w : World) : Z * World :=
  (clock_nth (clock_reads w),
   mkWorld (config w) (contexts w) (uuid_calls w) (S (clock_reads w)) (effects w)).

(** Whether an optional string is truthy. *)
Definition truthy_id (parentId : option string) : bool :=
  match parentId with
  | Some s => Js.truthy (JStr s)
  | None => false
  end.

(** [message(logLevel, processId, className, methodName, action, parentId)] *)
Definition message (logLevel : LogLevel) (processId className methodName : string)
    (action : Action) (parentId : option string) (w : World) : string * World :=
  let '(now, w') := Date_now w in
  (if truthy_id parentId then
     toISOString now +:+ " [" +:+ LogLevel_str logLevel +:+ ": "
       +:+ default "" parentId +:+ " > " +:+ processId +:+ "]: "
       +:+ Action_str action +:+ " " +:+ className +:+ "." +:+ methodName
   else
     toISOString now +:+ " [" +:+ LogLevel_str logLevel +:+ ": "
       +:+ processId +:+ "]: "
       +:+ Action_str action +:+ " " +:+ className +:+ "." +:+ methodName,
   w').

(** [sendLog(config, logData, logLevel)].  With [devMode] the message is
    printed, after the arguments were appended to [logData.message] when
    there are any.  Without [devMode] the function has no statement left:
    the block that wrote requests to the endpoints is commented out.  The
    first component is [logData] as the call leaves it. *)
Definition sendLog (config : gmap string JsVal) (logData : LogData) (logLevel : string)
    (w : World) : LogData * World :=
  if Js.truthy (Js.prop config "devMode") then
    match ld_args logData with
    | Some (a :: args) =>
        let logData' :=
          mkLogData (ld_processId logData) (ld_parentId logData) (ld_logLevel logData)
            (ld_className logData) (ld_methodName logData) (ld_action logData)
            (ld_timestamp logData)
            (ld_message logData +:+ " with args " +:+ JSON_stringify (a :: args))
            (ld_error logData) (ld_args logData) in
        (logData', emit (ConsoleLog (ld_message logData')) w)
    | _ => (logData, emit (ConsoleLog (ld_message logData)) w)
    end
  else (logData, w).

(** The object [logData] of [logEntry], as it is handed to [sendLog]. *)
Definition logEntry_logData (context : ProcessContext) (className methodName : string)
    (args : list JsVal) (logLevel : LogLevel) (isSensitive : bool) (w : World)
    : LogData * World :=
  let '(timestamp, w1) := Date_now w in
  let '(msg, w2) :=
    message logLevel (processId context) className methodName Enter (parentId context) w1 in
  (mkLogData (processId context) (parentId context) logLevel className methodName
     Enter timestamp msg None (if negb isSensitive then Some args else None),
   w2).

(** [logEntry(config, context, className, methodName, args, logLevel, isSensitive)] *)
Definition logEntry (config : gmap string JsVal) (context : ProcessContext)
    (className methodName : string) (args : list JsVal) (logLevel : LogLevel)
    (isSensitive : bool) (w : World) : World :=
  let '(logData, w') :=
    logEntry_logData context className methodName args logLevel isSensitive w in
  snd (sendLog config logData (LogLevel_str logLevel) w').

(** The object [logData] of [logExit]. *)
Definition logExit_logData (context : ProcessContext) (className methodName : string)
    (logLevel : LogLevel) (w : World) : LogData * World :=
  let '(timestamp, w1) := Date_now w in
  let '(msg, w2) :=
    message logLevel (processId context) className methodName Exit (parentId context) w1 in
  (mkLogData (processId context) (parentId context) logLevel className methodName
     Exit timestamp msg None None,
   w2).

(** [logExit(config, context, className, methodName, logLevel)] *)
Definition logExit (config : gmap string JsVal) (context : ProcessContext)
    (className methodName : string) (logLevel : LogLevel) (w : World) : World :=
  let '(logData, w') := logExit_logData context className methodName logLevel w in
  snd (sendLog config logData (LogLevel_str logLevel) w').

(** [error instanceof Error ? error.message : String(error)] *)
Definition describe (e : Thrown) : string :=
  match e with
  | ErrorObject _ msg => msg
  | ThrownValue v => String_of v
  end.

(** The object [logData] of [logError].  The literal evaluates [error]
    before [timestamp]; the message is built with the action ['Enter']. *)
Definition logError_logData (context : ProcessContext) (className methodName : string)
    (e : Thrown) (w : World) : LogData * World :=
  let '(timestamp, w1) := Date_now w in
  let '(msg, w2) :=
    message error (processId context) className methodName Enter (parentId context) w1 in
  (mkLogData (processId context) (parentId context) error className methodName
     Error timestamp msg (Some (describe e)) None,
   w2).

(** [logError(config, context, className, methodName, error)] *)
Definition logError (config : gmap string JsVal) (context : ProcessContext)
    (className methodName : string) (e : Thrown) (w : World) : World :=
  let '(logData, w') := logError_logData context className methodName e w in
  snd (sendLog config logData "error" w').

(** [|| false] and [if (options.isTopLevel)] on an optional boolean. *)
Definition flag (o : option bool) : bool := default false o.

(** The first statement of the decorated method that is not a
    declaration: the [context] of this call.  A top-level call does not
    read or write the WeakMap. *)
Definition LogPath_context (options : LogPathOptions) (this : Owner) (w : World)
    : ProcessContext * World :=
  if flag (o_isTopLevel options) then
    let '(id, w1) := uuidv4 w in
    (mkContext id None, w1)
  else
    match contexts w !! this with
    | None =>
        let '(id, w1) := uuidv4 w in
        let context := mkContext id None in
        (context, set_contexts (<[this := context]> (contexts w1)) w1)
    | Some existingContext =>
        let '(id, w1) := uuidv4 w in
        let context := mkContext id (Some (processId existingContext)) in
        (context, set_contexts (<[this := context]> (contexts w1)) w1)
    end.

(** [contexts.delete(this)] when the call is top-level. *)
Definition LogPath_cleanup (options : LogPathOptions) (this : Owner) (w : World) : World :=
  if flag (o_isTopLevel options) then set_contexts (delete this (contexts w)) w else w.

(** The decorated method, [descriptor.value], of
    [LogPath(options)(target, propertyKey, descriptor)];
    [className] is [target.constructor.name]. *)
Definition LogPath (options : LogPathOptions) (className propertyKey : string)
    (originalMethod : Method) (this : Owner) (args : list JsVal) (w : World)
    : CallResult * World :=
  let config := ConfigService.getConfig w in
  let '(context, w1) := LogPath_context options this w in
  let logLevel := default info (o_logLevel options) in
  let w2 := logEntry config context className propertyKey args logLevel
              (flag (o_isSensitive options)) w1 in
  let '(result, w3) := originalMethod this args w2 in
  match result with
  | Throws e => (Threw e, w3)
  | PromiseOf p =>
      (Chained p
         (fun result w => (Normal result, logExit config context className propertyKey logLevel w))
         (fun e w => (Abrupt e, logError config context className propertyKey e w))
         (LogPath_cleanup options this),
       w3)
  | Value result =>
      let w4 := logExit config context className propertyKey logLevel w3 in
      (Returned result, LogPath_cleanup options this w4)
  end.

(** How the promise a decorated method returned settles, once the promise
    of the wrapped method has settled with [outcome] in state [w].  Each
    callback is a job of its own; [between1] and [between2] are whatever
    other jobs do to the state in between.  [then] skips a rejection,
    [catch] skips a fulfilment, [finally] passes the settlement on. *)
Definition settle (r : CallResult) (outcome : Completion JsVal)
    (between1 between2 : World → World) (w : World) : Completion JsVal * World :=
  match r with
  | Returned v => (Normal v, w)
  | Threw e => (Abrupt e, w)
  | Chained _ onFulfilled onRejected onFinally =>
      let '(o1, w1) :=
        match outcome with
        | Normal v => onFulfilled v w
        | Abrupt e => (Abrupt e, w)
        end in
      let '(o2, w2) :=
        match o1 with
        | Normal v => (Normal v, between1 w1)
        | Abrupt e => onRejected e (between1 w1)
        end in
      (o2, onFinally (between2 w2))
  end.

End Decorator.

(** ** The conditions of the specification, in its own words *)

Module Spec.

(** The field [k] of a partial configuration, [undefined] when there is
    none to read. *)
Definition field (v : JsVal) (k : string) : JsVal :=
  match Js.get v k with
  | Normal x => x
  | Abrupt _ => JUndefined
  end.

Definition is_boolean (v : JsVal) : bool :=
  match v with
  | JBool _ => true
  | _ => false
  end.

Definition is_string (v : JsVal) : bool :=
  match v with
  | JStr _ => true
  | _ => false
  end.

Definition is_mode (mode : string) (v : JsVal) : bool :=
  match v with
  | JStr s => bool_decide (s = mode)
  | _ => false
  end.

(** One of the four log levels. *)
Definition recognized_level (v : JsVal) : bool :=
  match v with
  | JStr s => bool_decide (s ∈ ["debug"; "info"; "warn"; "error"])
  | _ => false
  end.

(** An element with an unrecognized log level or a non-string endpoint. *)
Definition malformed_entry (x : JsVal) : bool :=
  negb (recognized_level (field x "logLevel")) || negb (is_string (field x "endpoint")).

(** An invalid partial configuration: [devMode] absent or non-boolean,
    [logMode] absent or not one of the two modes, single mode with a
    non-string [endpoint], or multiple mode with some malformed element
    of [endpointParams]. *)
Definition invalid_partial (config : JsVal) : bool :=
  negb (is_boolean (field config "devMode"))
  || negb (is_mode "single" (field config "logMode")
           || is_mode "multiple" (field config "logMode"))
  || (is_mode "single" (field config "logMode")
      && negb (is_string (field config "endpoint")))
  || (is_mode "multiple" (field config "logMode")
      && match field config "endpointParams" with
         | JArray elems _ => existsb malformed_entry elems
         | _ => false
         end).

(** The stored configuration is in single mode with a string endpoint. *)
Definition single_with_endpoint (c : gmap string JsVal) : Prop :=
  Js.prop c "logMode" = JStr "single" ∧ ∃ s, Js.prop c "endpoint" = JStr s.

(** The requests a record is to be forwarded with when [devMode] is off:
    one to the endpoint in single mode, one to every entry of
    [endpointParams] registered for exactly the record's level in
    multiple mode. *)
Definition deliveries (c : gmap string JsVal) (logData : LogData) : list Effect :=
  if is_mode "single" (Js.prop c "logMode") then
    match Js.prop c "endpoint" with
    | JStr endpoint => [HttpsRequest endpoint logData]
    | _ => []
    end
  else
    match Js.prop c "endpointParams" with
    | JArray elems _ =>
        omap (fun param =>
                match field param "endpoint" with
                | JStr endpoint =>
                    if Js.strict_eq (field param "logLevel")
                         (JStr (LogLevel_str (ld_logLevel logData)))
                    then Some (HttpsRequest endpoint logData) else None
                | _ => None
                end) elems
    | _ => []
    end.

(** The message of a record: the timestamp, the level, the parent and
    process identifiers when there is a parent and the process identifier
    alone otherwise, the action, the class and the method. *)
Definition message_format (iso : string) (logLevel : LogLevel) (parentId : option string)
    (processId : string) (action : Action) (className methodName : string) : string :=
  match parentId with
  | Some parent =>
      iso +:+ " [" +:+ LogLevel_str logLevel +:+ ": " +:+ parent +:+ " > " +:+ processId
        +:+ "]: " +:+ Action_str action +:+ " " +:+ className +:+ "." +:+ methodName
  | None =>
      iso +:+ " [" +:+ LogLevel_str logLevel +:+ ": " +:+ processId
        +:+ "]: " +:+ Action_str action +:+ " " +:+ className +:+ "." +:+ methodName
  end.

End Spec.

(** ** Index keys and named keys *)

(** Whether [c] is one of the characters 0 to 9. *)
Definition is_digit (c : Ascii.ascii) : bool :=
  (48 <=? Ascii.nat_of_ascii c)%nat && (Ascii.nat_of_ascii c <=? 57)%nat.

(** A key that does not start with a digit is not an array index. *)
Definition named (k : string) : bool :=
  match k with
  | String c _ => negb (is_digit c)
  | EmptyString => true
  end.

(** ** A host to run examples on *)

Module Stub.

Fixpoint zeros (n : nat) : string :=
  match n with
  | O => EmptyString
  | S n' => "0" +:+ zeros n'
  end.

(** [z] in decimal, padded with zeros on the left to [width] digits. *)
Definition pad (width : nat) (z : Z) : string :=
  let s := pretty z in zeros (width - String.length s) +:+ s.

(** Year, month and day of the day [days] after 1970-01-01, in the
    proleptic Gregorian calendar. *)
Definition civil_from_days (days : Z) : Z * Z * Z :=
  let z := (days + 719468)%Z in
  let era := (z `div` 146097)%Z in
  let doe := (z - era * 146097)%Z in
  let yoe := ((doe - doe `div` 1460 + doe `div` 36524 - doe `div` 146096) `div` 365)%Z in
  let doy := (doe - (365 * yoe + yoe `div` 4 - yoe `div` 100))%Z in
  let mp := ((5 * doy + 2) `div` 153)%Z in
  let d := (doy - (153 * mp + 2) `div` 5 + 1)%Z in
  let m := (if mp <? 10 then mp + 3 else mp - 9)%Z in
  let y := (yoe + era * 400 + (if m <=? 2 then 1 else 0))%Z in
  (y, m, d).

(** [new Date(ms).toISOString()] *)
Definition iso8601 (ms : Z) : string :=
  let '(y, m, d) := civil_from_days (ms `div` 86400000)%Z in
  let t := (ms `mod` 86400000)%Z in
  (if ((0 <=? y) && (y <=? 9999))%Z then pad 4 y
   else (if (y <? 0)%Z then "-" else "+") +:+ pad 6 (Z.abs y))
  +:+ "-" +:+ pad 2 m +:+ "-" +:+ pad 2 d
  +:+ "T" +:+ pad 2 (t `div` 3600000)%Z
  +:+ ":" +:+ pad 2 ((t `div` 60000) `mod` 60)%Z
  +:+ ":" +:+ pad 2 ((t `div` 1000) `mod` 60)%Z
  +:+ "." +:+ pad 3 (t `mod` 1000)%Z +:+ "Z".

Definition join (sep : string) (l : list string) : string :=
  match l with
  | [] => EmptyString
  | x :: rest => foldl (fun acc y => acc +:+ sep +:+ y) x rest
  end.

Definition quote : string := String (Ascii.ascii_of_nat 34) EmptyString.

(** An approximation of [JSON.stringify(v)] for the examples, [None] for
    [undefined]: strings are printed without escapes, numbers in plain
    decimal whatever their size, and the keys of an object in the order of
    the map, not of insertion. *)
Fixpoint stringify (v : JsVal) : option string :=
  match v with
  | JUndefined => None
  | JNull => Some "null"
  | JBool b => Some (if b then "true" else "false")
  | JNum z => Some (pretty z)
  | JStr s => Some (quote +:+ s +:+ quote)
  | JObject props =>
      Some ("{" +:+ join ","
              (map_fold (fun k x (acc : list string) =>
                           match stringify x with
                           | Some s => (acc ++ [quote +:+ k +:+ quote +:+ ":" +:+ s])%list
                           | None => acc
                           end) [] props)
            +:+ "}")
  | JArray elems _ =>
      Some ("[" +:+ join "," ((fun x => default "null" (stringify x)) <$> elems) +:+ "]")
  end.

(** [String(v)] *)
Fixpoint toString (v : JsVal) : string :=
  match v with
  | JUndefined => "undefined"
  | JNull => "null"
  | JBool b => if b then "true" else "false"
  | JNum z => pretty z
  | JStr s => s
  | JObject _ => "[object Object]"
  | JArray elems _ =>
      join "," ((fun x => match x with
                          | JUndefined | JNull => EmptyString
                          | _ => toString x
                          end) <$> elems)
  end.

(** Identifiers numbered in the order they are drawn, and a clock that
    advances by one millisecond with every reading. *)
Definition host : Host :=
  {| uuidv4_nth := fun n => "00000000-0000-4000-8000-" +:+ pad 12 (Z.of_nat n);
     clock_nth := fun n => (1700000000000 + Z.of_nat n)%Z;
     toISOString := iso8601;
     JSON_stringify := fun args => default "null" (stringify (JArray args ∅));
     String_of := toString |}.

End Stub.

(** ** Scenarios *)

(** The single-endpoint configuration of the README, for production. *)
Definition readme_single : gmap string JsVal :=
  {[ "devMode" := JBool false;
     "logMode" := JStr "single";
     "endpoint" := JStr "https://logs.example.com" ]}.

Definition entry (logLevel endpoint : string) : JsVal :=
  JObject {[ "logLevel" := JStr logLevel; "endpoint" := JStr endpoint ]}.

(** A multiple-mode configuration carried by an array object, as
    [Object.assign([], { devMode: false, logMode: 'multiple', endpointParams })]
    builds it. *)
Definition multiple_on_array (endpointParams : list JsVal) : JsVal :=
  JArray []
    {[ "devMode" := JBool false;
       "logMode" := JStr "multiple";
       "endpointParams" := JArray endpointParams ∅ ]}.

Definition entryA : JsVal := entry "error" "https://error-logs.example.com".
Definition entryB : JsVal := entry "info" "https://info-logs.example.com".
Definition entryC : JsVal := entry "warn" "https://warn-logs.example.com".

(** The state after [setConfig] installed the entries A and B. *)
Definition world_AB : World := setConfig_all [multiple_on_array [entryA; entryB]] initial_world.

(** [@LogPath({ isTopLevel: true, logLevel: 'info' })] and
    [@LogPath({ logLevel: 'debug' })] of the README. *)
Definition top_level_info : LogPathOptions := mkOptions (Some true) None None (Some info).
Definition child_debug : LogPathOptions := mkOptions None None None (Some debug).
Definition sensitive : LogPathOptions := mkOptions None None (Some true) None.

(** A multiple-mode configuration for production with two endpoints
    registered for [warn] (as it is stored once installed). *)
Definition production_multiple : gmap string JsVal :=
  {[ "devMode" := JBool false;
     "logMode" := JStr "multiple";
     "endpointParams" :=
       JArray [entryA; entryC; entryB; entry "warn" "https://audit.example.com"] ∅ ]}.

(** A record as [logExit] builds it for a call at level [warn]. *)
Definition warn_record : LogData :=
  mkLogData "00000000-0000-4000-8000-000000000000" None warn "OrderService" "processOrder"
    Exit 1700000000000
    "2023-11-14T22:13:20.001Z [warn: 00000000-0000-4000-8000-000000000000]: Exit OrderService.processOrder"
    None None.

Section Scenarios.
Context `{Host}.

(** [validateOrder(orderId) { }]: returns at once. *)
Definition validateOrder : Method := fun _ _ w => (Value JUndefined, w).

(** A synchronous [processOrder(orderId)] that calls the decorated
    [this.validateOrder(orderId)] and then throws. *)
Definition processOrder_rejecting : Method := fun this args w =>
  let '(_, w1) := LogPath child_debug "OrderService" "validateOrder" validateOrder this args w in
  (Throws (ErrorObject "Error" "order rejected"), w1).

End Scenarios.

(** The multiple-endpoint configuration of the README, as the plain object
    literal it is written as. *)
Definition readme_multiple : gmap string JsVal :=
  {[ "devMode" := JBool false;
     "logMode" := JStr "multiple";
     "endpointParams" := JArray [entryA; entryB] ∅ ]}.

(** A multiple-mode configuration on an array whose second entry has an
    unknown level. *)
Definition malformed_multiple : JsVal :=
  multiple_on_array [entryA; entry "verbose" "https://verbose-logs.example.com"].

(** ** The shapes of interfaces/log-config.interface *)

(** [LogLevelTo]: a log level and a string endpoint. *)
Definition well_formed_entry (x : JsVal) : Prop :=
  ∃ (l : LogLevel) (e : string),
    Js.get x "logLevel" = Normal (JStr (LogLevel_str l))
    ∧ Js.get x "endpoint" = Normal (JStr e).

(** A value with the fields of [SingleEndpointConfig]. *)
Definition valid_single (v : JsVal) : Prop :=
  (∃ b, Js.get v "devMode" = Normal (JBool b))
  ∧ Js.get v "logMode" = Normal (JStr "single")
  ∧ ∃ s, Js.get v "endpoint" = Normal (JStr s).

(** An array object with the fields of [MultipleEndpointConfig]. *)
Definition valid_multiple (v : JsVal) : Prop :=
  Js.isArray v = true
  ∧ (∃ b, Js.get v "devMode" = Normal (JBool b))
  ∧ Js.get v "logMode" = Normal (JStr "multiple")
  ∧ ∃ elems pr, Js.get v "endpointParams" = Normal (JArray elems pr)
                ∧ Forall well_formed_entry elems.

(** A stored configuration that is a [LogConfig]: a boolean [devMode] and
    either single mode with a string endpoint or multiple mode with an
    array of entries. *)
Definition well_formed_config (c : gmap string JsVal) : Prop :=
  (∃ b, Js.prop c "devMode" = JBool b)
  ∧ ((Js.prop c "logMode" = JStr "single" ∧ ∃ s, Js.prop c "endpoint" = JStr s)
     ∨ (Js.prop c "logMode" = JStr "multiple"
        ∧ ∃ elems pr, Js.prop c "endpointParams" = JArray elems pr
                      ∧ Forall well_formed_entry elems)).

(** A single-mode partial with an empty endpoint. *)
Definition single_empty_endpoint : JsVal :=
  JObject {[ "devMode" := JBool true;
             "logMode" := JStr "single";
             "endpoint" := JStr EmptyString ]}.

(** A partial in single mode that carries a field of its own besides. *)
Definition single_with_tag : JsVal :=
  JObject {[ "devMode" := JBool false;
             "logMode" := JStr "single";
             "endpoint" := JStr "https://logs.example.com";
             "tag" := JStr "blue" ]}.

Section Printing.
Context `{Host}.

(** The argument of [console.log] in [sendLog]: the message, followed by
    the arguments when the record has a non-empty [args]. *)
Definition printed (logData : LogData) : string :=
  match ld_args logData with
  | Some (a :: args) => ld_message logData +:+ " with args " +:+ JSON_stringify (a :: args)
  | _ => ld_message logData
  end.

(** A wrapped method that switches the library to production while it
    runs, and returns. *)
Definition reconfiguring : Method := fun _ _ w =>
  (Value JUndefined, initLogPath (JObject readme_single) w).

(** An [async] wrapped method: it returns a promise at once. *)
Definition pending : Method := fun _ _ w => (PromiseOf 0, w).

(** The decorated method from [originalMethod.apply(this, args)] on, for
    the [config] and the [context] of the call: the statements after
    [logEntry], run in the state [w2] that [logEntry] left. *)
Definition LogPath_after (config : gmap string JsVal) (context : ProcessContext)
    (options : LogPathOptions) (className propertyKey : string)
    (originalMethod : Method) (this : Owner) (args : list JsVal) (w2 : World)
    : CallResult * World :=
  let logLevel := default info (o_logLevel options) in
  let '(result, w3) := originalMethod this args w2 in
  match result with
  | Throws e => (Threw e, w3)
  | PromiseOf p =>
      (Chained p
         (fun result w => (Normal result, logExit config context className propertyKey logLevel w))
         (fun e w => (Abrupt e, logError config context className propertyKey e w))
         (LogPath_cleanup options this),
       w3)
  | Value result =>
      let w4 := logExit config context className propertyKey logLevel w3 in
      (Returned result, LogPath_cleanup options this w4)
  end.

End Printing.

(** * Properties *)

#[local] Arguments String.eqb : simpl never.
#[local] Arguments Js.includes : simpl never.
#[local] Arguments Js.strict_eq !a !b /.

(** ** Reading properties *)

Lemma prop_lookup (o : gmap string JsVal) (k : string) (v : JsVal) :
  o !! k = Some v → Js.prop o k = v.
Proof. unfold Js.prop. by intros ->. Qed.

Lemma prop_union_l (m1 m2 : gmap string JsVal) (k : string) (v : JsVal) :
  m1 !! k = Some v → Js.prop (m1 ∪ m2) k = v.
Proof. intros Hk. apply prop_lookup. by apply lookup_union_Some_l. Qed.

Lemma prop_union_r (m1 m2 : gmap string JsVal) (k : string) :
  m1 !! k = None → Js.prop (m1 ∪ m2) k = Js.prop m2 k.
Proof. intros Hk. unfold Js.prop. by rewrite lookup_union_r. Qed.

(** ** Validation *)

Section Validation.
Import ConfigService.

Lemma includes_modes (v : JsVal) :
  Js.includes ["single"; "multiple"] v = true →
  v = JStr "single" ∨ v = JStr "multiple".
Proof.
  destruct v; try done. unfold Js.includes. simpl.
  destruct (String.eqb_spec "single" s) as [<-|_]; [by left|].
  destruct (String.eqb_spec "multiple" s) as [<-|_]; [by right|discriminate].
Qed.

Lemma typeof_boolean (v : JsVal) :
  String.eqb (Js.typeof v) "boolean" = true → ∃ b, v = JBool b.
Proof. destruct v; simpl; try discriminate. eauto. Qed.

Lemma typeof_string (v : JsVal) :
  String.eqb (Js.typeof v) "string" = true → ∃ s, v = JStr s.
Proof. destruct v; simpl; try discriminate. eauto. Qed.

(** What a configuration that passes validation looks like: single mode
    with a string endpoint, or an array that carries the multiple-mode
    properties. *)
Lemma validateConfig_true (config : JsVal) :
  validateConfig config = Normal true →
  (∃ b, Js.get config "devMode" = Normal (JBool b))
  ∧ ((Js.get config "logMode" = Normal (JStr "single")
      ∧ ∃ s, Js.get config "endpoint" = Normal (JStr s))
     ∨ (Js.get config "logMode" = Normal (JStr "multiple")
        ∧ Js.isArray config = true
        ∧ ∃ elems pr, Js.get config "endpointParams" = Normal (JArray elems pr)
                      ∧ Js.every_elems validEndpointParam elems = Normal true)).
Proof.
  unfold validateConfig, mret, Completion_ret.
  destruct (Js.get config "devMode") as [devMode|] eqn:Hdev; [|done].
  destruct (Js.get config "logMode") as [logMode|] eqn:Hmode; [|done].
  simpl.
  destruct (String.eqb (Js.typeof devMode) "boolean") eqn:Hb; [|done].
  destruct (String.eqb (Js.typeof logMode) "string") eqn:Hs; [|done].
  destruct (Js.includes ["single"; "multiple"] logMode) eqn:Hin; [|done].
  simpl. apply typeof_boolean in Hb as [b ->].
  intros Hv. split; [eauto|].
  apply includes_modes in Hin as [-> | ->]; simpl in Hv.
  - left. split; [done|].
    destruct (Js.get config "endpoint") as [endpoint|]; [|done].
    injection Hv as Hv. apply typeof_string in Hv as [s ->]. eauto.
  - right. split; [done|].
    destruct (Js.isArray config) eqn:Harr; [|done].
    split; [done|].
    destruct (Js.get config "endpointParams") as [endpointParams|]; [|done].
    simpl in Hv. destruct endpointParams; try done. eauto.
Qed.

(** A configuration that is not an array and asks for multiple mode never
    passes. *)
Lemma validateConfig_not_array (config : JsVal) :
  Js.isArray config = false →
  Js.get config "logMode" = Normal (JStr "multiple") →
  validateConfig config = Normal false.
Proof.
  intros Harr Hmode. unfold validateConfig. rewrite Hmode.
  destruct (Js.get config "devMode") as [devMode|] eqn:Hdev; simpl.
  - rewrite Harr. by destruct (String.eqb (Js.typeof devMode) "boolean").
  - destruct config; discriminate.
Qed.

(** [setConfig] either installs a configuration or throws and leaves the
    state as it was. *)
Lemma setConfig_abrupt_unchanged (config : JsVal) (w w' : World) (e : Thrown) :
  setConfig config w = (Abrupt e, w') → w' = w.
Proof.
  unfold setConfig.
  destruct (validateConfig config) as [[]|]; simpl;
    [destruct (mergeConfig _ _)|..]; congruence.
Qed.

Lemma setConfig_invalid (config : JsVal) (w : World) :
  validateConfig config ≠ Normal true →
  ∃ e, setConfig config w = (Abrupt e, w).
Proof.
  unfold setConfig. destruct (validateConfig config) as [[]|]; simpl; [done|eauto..].
Qed.

End Validation.

(** ** Rejected updates *)

Section Rejection.
Import ConfigService.

Lemma isValidLogLevel_recognized (v : JsVal) :
  isValidLogLevel v = true → Spec.recognized_level v = true.
Proof.
  unfold isValidLogLevel, Js.includes, LogLevel_values.
  destruct v; try done. simpl. intros Hv. apply bool_decide_eq_true.
  repeat (apply orb_prop in Hv as [Hv|Hv];
          [apply String.eqb_eq in Hv as <-; set_solver|]).
  done.
Qed.

Lemma validEndpointParam_well_formed (x : JsVal) :
  validEndpointParam x = Normal true → Spec.malformed_entry x = false.
Proof.
  unfold validEndpointParam, Spec.malformed_entry, Spec.field.
  destruct (Js.get x "logLevel") as [logLevel|]; [|done].
  destruct (Js.get x "endpoint") as [endpoint|]; [|done].
  simpl. intros [= Hv]. apply andb_prop in Hv as [Hl He].
  apply isValidLogLevel_recognized in Hl as ->.
  apply typeof_string in He as [s ->]. done.
Qed.

Lemma every_elems_well_formed (elems : list JsVal) :
  Js.every_elems validEndpointParam elems = Normal true →
  existsb Spec.malformed_entry elems = false.
Proof.
  induction elems as [|x elems IH]; [done|]. simpl.
  destruct (validEndpointParam x) as [[]|] eqn:Hx; [|done..].
  simpl. intros Hrest. by rewrite (validEndpointParam_well_formed x Hx), IH.
Qed.

(** Whatever the specification calls invalid does not pass
    [validateConfig]. *)
Lemma invalid_partial_not_valid (config : JsVal) :
  Spec.invalid_partial config = true → validateConfig config ≠ Normal true.
Proof.
  intros Hinv Hv. apply validateConfig_true in Hv as [[b Hdev] Hshape].
  unfold Spec.invalid_partial, Spec.field in Hinv. rewrite Hdev in Hinv.
  destruct Hshape as [[Hmode [s Hend]] | [Hmode [_ (elems & pr & Hparams & Hevery)]]];
    rewrite Hmode in Hinv; simpl in Hinv.
  - by rewrite Hend in Hinv.
  - rewrite Hparams in Hinv. by rewrite (every_elems_well_formed _ Hevery) in Hinv.
Qed.

End Rejection.

(** C1: a partial configuration that is a plain object (not an array) of the
    shape [{ devMode: boolean, logMode: 'multiple', endpointParams: [...] }]
    fails validation: [setConfig] throws its error and the state, with the
    stored configuration, is left as it was. *)
Theorem setConfig_rejects_multiple_object
    (props : gmap string JsVal) (b : bool) (elems : list JsVal) (pr : gmap string JsVal)
    (w : World) :
  props !! "devMode" = Some (JBool b) →
  props !! "logMode" = Some (JStr "multiple") →
  props !! "endpointParams" = Some (JArray elems pr) →
  ConfigService.validateConfig (JObject props) = Normal false
  ∧ ConfigService.setConfig (JObject props) w = (Abrupt ConfigService.invalid_config, w)
  ∧ ConfigService.getConfig (snd (ConfigService.setConfig (JObject props) w))
    = ConfigService.getConfig w.
Proof.
  intros _ Hmode _.
  assert (ConfigService.validateConfig (JObject props) = Normal false) as Hv.
  { apply validateConfig_not_array; [done|]. simpl. by rewrite (prop_lookup _ _ _ Hmode). }
  unfold ConfigService.setConfig. rewrite Hv. done.
Qed.

Lemma setConfig_rejects_multiple_object_witness :
  ConfigService.validateConfig (JObject readme_multiple) = Normal false
  ∧ ConfigService.setConfig (JObject readme_multiple) initial_world
    = (Abrupt ConfigService.invalid_config, initial_world)
  ∧ ConfigService.getConfig
      (snd (ConfigService.setConfig (JObject readme_multiple) initial_world))
    = ConfigService.getConfig initial_world.
Proof.
  apply (setConfig_rejects_multiple_object readme_multiple false [entryA; entryB] ∅);
    vm_compute; reflexivity.
Defined.

(** C2: every invalid partial configuration ([devMode] absent or
    non-boolean, [logMode] absent or unrecognized, single mode with a
    non-string endpoint, multiple mode with a malformed element of
    [endpointParams]) makes [setConfig] throw, and the configuration read by
    [getConfig] afterwards is the one from before the call. *)
Theorem setConfig_invalid_atomic (config : JsVal) (w : World) :
  Spec.invalid_partial config = true →
  (∃ e, ConfigService.setConfig config w = (Abrupt e, w))
  ∧ ConfigService.getConfig (snd (ConfigService.setConfig config w))
    = ConfigService.getConfig w.
Proof.
  intros Hinv.
  destruct (setConfig_invalid config w (invalid_partial_not_valid config Hinv)) as [e He].
  split; [eauto|]. by rewrite He.
Qed.

Lemma setConfig_invalid_atomic_witness :
  Spec.invalid_partial malformed_multiple = true
  ∧ (∃ e, ConfigService.setConfig malformed_multiple initial_world = (Abrupt e, initial_world))
  ∧ ConfigService.getConfig (snd (ConfigService.setConfig malformed_multiple initial_world))
    = ConfigService.getConfig initial_world.
Proof.
  split; [vm_compute; reflexivity|].
  apply (setConfig_invalid_atomic malformed_multiple initial_world).
  vm_compute; reflexivity.
Defined.

(** ** Array indices are not named keys *)

Lemma pretty_N_go_not_named (x : N) (s : string) :
  (0 < x)%N ∨ named s = false → named (pretty_N_go x s) = false.
Proof.
  revert s. induction (N.lt_wf_0 x) as [x _ IH]; intros s Hs.
  assert (x = 0 ∨ 0 < x)%N as [->|Hpos] by lia.
  - rewrite pretty_N_go_0. by destruct Hs as [?|?]; [lia|].
  - rewrite pretty_N_go_step by done. apply IH; [by apply N.div_lt|].
    right. simpl. unfold pretty_N_char. by repeat case_match.
Qed.

Lemma pretty_nat_not_named (i : nat) : named (pretty i) = false.
Proof.
  unfold pretty, pretty_nat, pretty, pretty_N. case_decide; [done|].
  apply pretty_N_go_not_named. lia.
Qed.

Lemma indexed_named (l : list JsVal) (k : string) :
  named k = true → Js.indexed l !! k = None.
Proof.
  intros Hk. unfold Js.indexed. apply not_elem_of_list_to_map_1.
  intros Hin. apply list_elem_of_fmap in Hin as [[k' x] [-> Hin]].
  apply elem_of_lookup_imap in Hin as (i & y & [= -> ->] & _).
  simpl in Hk. by rewrite pretty_nat_not_named in Hk.
Qed.

(** A named property that can be read from a value and is not [undefined]
    is among the properties a spread copies. *)
Lemma own_enumerable_named (v x : JsVal) (k : string) :
  named k = true → x ≠ JUndefined →
  Js.get v k = Normal x → Js.own_enumerable v !! k = Some x.
Proof.
  intros Hk Hx. unfold Js.get, Js.prop.
  destruct v as [| | | | |props|elems props]; simpl; try congruence.
  - destruct (props !! k); simpl; congruence.
  - rewrite lookup_union_r by by apply indexed_named.
    destruct (props !! k); simpl; congruence.
Qed.

(** ** Merging *)

Section Merging.
Import ConfigService.

(** Decides the comparisons of string literals that evaluation leaves
    behind. *)
Ltac literals :=
  repeat match goal with
         | |- context [String.eqb ?a ?b] =>
             let r := eval vm_compute in (String.eqb a b) in
             match r with
             | true => change (String.eqb a b) with true
             | false => change (String.eqb a b) with false
             end
         end.

(** The object literal [{ ...existing, ...newConfig, ...last }]. *)
Lemma spread3 (existing last : gmap string JsVal) (newConfig : JsVal) :
  Js.spread (Js.spread (Js.spread ∅ (JObject existing)) newConfig) (JObject last)
  = last ∪ (Js.own_enumerable newConfig ∪ existing).
Proof. unfold Js.spread. simpl. by rewrite (right_id_L ∅ (∪)). Qed.

(** Mode unchanged, single: the incoming fields overlay the stored ones. *)
Lemma mergeConfig_stay_single (existing : gmap string JsVal) (newConfig : JsVal) :
  Js.prop existing "logMode" = JStr "single" →
  Js.get newConfig "logMode" = Normal (JStr "single") →
  mergeConfig existing newConfig = Normal (Js.own_enumerable newConfig ∪ existing).
Proof.
  intros Hold Hnew. unfold mergeConfig. rewrite Hnew. simpl. rewrite Hold. simpl.
  literals. simpl. by rewrite spread3, (left_id_L ∅ (∪)).
Qed.

(** Mode changed to single: the endpoint is the incoming one, or the
    default one when the incoming one is falsy. *)
Lemma mergeConfig_to_single (existing : gmap string JsVal) (newConfig endpoint : JsVal) :
  Js.strict_eq (JStr "single") (Js.prop existing "logMode") = false →
  Js.get newConfig "logMode" = Normal (JStr "single") →
  Js.get newConfig "endpoint" = Normal endpoint →
  mergeConfig existing newConfig
  = Normal ({[ "endpoint" := Js.or_else endpoint (Js.prop DEFAULT_CONFIG "endpoint") ]}
            ∪ (Js.own_enumerable newConfig ∪ existing)).
Proof.
  intros Hold Hnew Hend. unfold mergeConfig. rewrite Hnew. simpl. rewrite Hold. simpl.
  literals. rewrite Hend. simpl. by rewrite spread3.
Qed.

(** Mode changed to multiple: [endpointParams] is the incoming array. *)
Lemma mergeConfig_to_multiple (existing : gmap string JsVal) (newConfig : JsVal)
    (elems : list JsVal) (pr : gmap string JsVal) :
  Js.strict_eq (JStr "multiple") (Js.prop existing "logMode") = false →
  Js.get newConfig "logMode" = Normal (JStr "multiple") →
  Js.get newConfig "endpointParams" = Normal (JArray elems pr) →
  mergeConfig existing newConfig
  = Normal ({[ "endpointParams" := JArray elems pr ]}
            ∪ (Js.own_enumerable newConfig ∪ existing)).
Proof.
  intros Hold Hnew Hparams. unfold mergeConfig. rewrite Hnew. simpl. rewrite Hold. simpl.
  literals. rewrite Hparams. simpl. by rewrite spread3.
Qed.

(** Mode unchanged, multiple: the stored entries followed by the incoming
    ones, in a new array. *)
Lemma mergeConfig_stay_multiple (existing : gmap string JsVal) (newConfig : JsVal)
    (old incoming : list JsVal) (po pi : gmap string JsVal) :
  Js.prop existing "logMode" = JStr "multiple" →
  Js.prop existing "endpointParams" = JArray old po →
  Js.get newConfig "logMode" = Normal (JStr "multiple") →
  Js.get newConfig "endpointParams" = Normal (JArray incoming pi) →
  mergeConfig existing newConfig
  = Normal ({[ "endpointParams" := JArray (old ++ incoming) ∅ ]}
            ∪ (Js.own_enumerable newConfig ∪ existing)).
Proof.
  intros Hold Hparams Hnew Hin. unfold mergeConfig.
  rewrite Hnew. simpl. rewrite Hold, Hparams. simpl.
  literals. rewrite Hin. simpl. by rewrite spread3.
Qed.

(** [setConfig] with a configuration that passes validation and merges. *)
Lemma setConfig_installs (config : JsVal) (merged : gmap string JsVal) (w : World) :
  validateConfig config = Normal true →
  mergeConfig (getConfig w) config = Normal merged →
  setConfig config w = (Normal tt, set_config merged w).
Proof. intros Hv Hm. unfold setConfig. by rewrite Hv, Hm. Qed.

End Merging.

(** C3: with a stored multiple-mode configuration whose entries are [old]
    (as [A, B]), setting a valid multiple-mode partial with the entries
    [incoming] (as [C]) and no change of mode stores [old] followed by
    [incoming], duplicates included; setting a valid single-mode partial
    first and the same multiple-mode partial afterwards stores exactly the
    incoming array. *)
Theorem setConfig_multiple_accumulates
    (w : World) (newConfig single : JsVal) (old incoming : list JsVal)
    (po pi : gmap string JsVal) :
  Js.prop (ConfigService.getConfig w) "logMode" = JStr "multiple" →
  Js.prop (ConfigService.getConfig w) "endpointParams" = JArray old po →
  ConfigService.validateConfig newConfig = Normal true →
  Js.get newConfig "logMode" = Normal (JStr "multiple") →
  Js.get newConfig "endpointParams" = Normal (JArray incoming pi) →
  ConfigService.validateConfig single = Normal true →
  Js.get single "logMode" = Normal (JStr "single") →
  (∃ w1, ConfigService.setConfig newConfig w = (Normal tt, w1)
         ∧ Js.prop (ConfigService.getConfig w1) "endpointParams"
           = JArray (old ++ incoming) ∅)
  ∧ (∃ w1 w2, ConfigService.setConfig single w = (Normal tt, w1)
              ∧ ConfigService.setConfig newConfig w1 = (Normal tt, w2)
              ∧ Js.prop (ConfigService.getConfig w2) "endpointParams"
                = JArray incoming pi).
Proof.
  intros Hmode Hold Hvalid Hnew Hin Hvalid1 Hsingle. split.
  - eexists. split.
    + apply setConfig_installs; [done|].
      by apply (mergeConfig_stay_multiple _ _ old incoming po pi).
    + simpl. apply prop_union_l. by rewrite lookup_singleton_eq.
  - destruct (validateConfig_true single Hvalid1) as [_ [[_ [s Hend]] | [Hm _]]];
      [|congruence].
    eexists. eexists. split; [|split].
    + apply setConfig_installs; [done|].
      apply (mergeConfig_to_single _ _ (JStr s)); [|done..].
      by rewrite Hmode.
    + apply setConfig_installs; [done|].
      apply (mergeConfig_to_multiple _ _ incoming pi); [|done..].
      simpl. rewrite prop_union_r by done.
      by rewrite (prop_union_l _ _ _ (JStr "single"))
        by by apply own_enumerable_named.
    + simpl. apply prop_union_l. by rewrite lookup_singleton_eq.
Qed.

(** C10, as amended: from the built-in default, after any run of
    [setConfig] calls (accepted or rejected) whose arguments are not arrays,
    the stored configuration is in single mode and its endpoint is a
    string. *)
Theorem setConfig_objects_keep_single (calls : list JsVal) :
  Forall (fun c => Js.isArray c = false) calls →
  Spec.single_with_endpoint (ConfigService.getConfig (setConfig_all calls initial_world)).
Proof.
  unfold setConfig_all. intros Hcalls.
  assert (Spec.single_with_endpoint (ConfigService.getConfig initial_world)) as Hinit.
  { split; [done|]. by exists "http://default-endpoint.com". }
  revert Hinit. generalize initial_world.
  induction Hcalls as [|c calls Hc _ IH]; intros w Hw; [done|].
  simpl. apply IH.
  destruct (ConfigService.validateConfig c) as [[]|] eqn:Hv;
    [|unfold ConfigService.setConfig; by rewrite Hv..].
  destruct (validateConfig_true c Hv) as [_ [[Hmode [s Hend]] | [_ [Harr _]]]];
    [|congruence].
  destruct Hw as [Hold _].
  rewrite (setConfig_installs c _ w Hv (mergeConfig_stay_single _ c Hold Hmode)).
  simpl. split.
  - by apply prop_union_l, own_enumerable_named.
  - exists s. by apply prop_union_l, own_enumerable_named.
Qed.

Lemma setConfig_multiple_accumulates_witness :
  (Js.prop (ConfigService.getConfig world_AB) "logMode" = JStr "multiple"
   ∧ Js.prop (ConfigService.getConfig world_AB) "endpointParams" = JArray [entryA; entryB] ∅
   ∧ ConfigService.validateConfig (multiple_on_array [entryC]) = Normal true
   ∧ ConfigService.validateConfig (JObject readme_single) = Normal true)
  ∧ (∃ w1, ConfigService.setConfig (multiple_on_array [entryC]) world_AB = (Normal tt, w1)
           ∧ Js.prop (ConfigService.getConfig w1) "endpointParams"
             = JArray ([entryA; entryB] ++ [entryC])%list ∅)
  ∧ (∃ w1 w2, ConfigService.setConfig (JObject readme_single) world_AB = (Normal tt, w1)
              ∧ ConfigService.setConfig (multiple_on_array [entryC]) w1 = (Normal tt, w2)
              ∧ Js.prop (ConfigService.getConfig w2) "endpointParams" = JArray [entryC] ∅).
Proof.
  split; [by vm_compute|].
  apply (setConfig_multiple_accumulates world_AB (multiple_on_array [entryC])
           (JObject readme_single) [entryA; entryB] [entryC] ∅ ∅);
    vm_compute; reflexivity.
Defined.

(** Duplicates are kept: installing A and B a second time stores them
    twice. *)
Example setConfig_keeps_duplicates :
  Js.prop (ConfigService.getConfig
             (setConfig_all [multiple_on_array [entryA; entryB]] world_AB)) "endpointParams"
  = JArray [entryA; entryB; entryA; entryB] ∅.
Proof. vm_compute. reflexivity. Qed.

(** The multiple-endpoint call of the README is rejected, and
    [initLogPath] only reports it. *)
Example initLogPath_readme_multiple :
  initLogPath (JObject readme_multiple) initial_world
  = emit (ConsoleError "Failed to initialize log path" ConfigService.invalid_config)
      initial_world.
Proof. vm_compute. reflexivity. Qed.

(** C10, as stated, fails: an array object that carries the multiple-mode
    properties passes validation, and [setConfig] installs a configuration
    in multiple mode. *)
Lemma setConfig_installs_multiple_from_array :
  Js.isArray (multiple_on_array [entryA; entryB]) = true
  ∧ Js.prop (ConfigService.getConfig
               (setConfig_all [multiple_on_array [entryA; entryB]] initial_world)) "logMode"
    = JStr "multiple"
  ∧ ¬ Spec.single_with_endpoint
        (ConfigService.getConfig
           (setConfig_all [multiple_on_array [entryA; entryB]] initial_world)).
Proof.
  split; [done|]. split; [by vm_compute|].
  intros [Hmode _]. vm_compute in Hmode. discriminate.
Qed.

Lemma setConfig_objects_keep_single_witness :
  Forall (fun c => Js.isArray c = false)
    [JObject readme_multiple; JObject readme_single; JNull; JStr "single"]
  ∧ Spec.single_with_endpoint
      (ConfigService.getConfig
         (setConfig_all [JObject readme_multiple; JObject readme_single; JNull; JStr "single"]
            initial_world)).
Proof.
  split; [by repeat constructor|].
  apply (setConfig_objects_keep_single
           [JObject readme_multiple; JObject readme_single; JNull; JStr "single"]).
  by repeat constructor.
Defined.

(** ** The decorator *)

Section DecoratorProperties.
Context `{Host}.

Lemma sendLog_preserves (c : gmap string JsVal) (logData : LogData) (logLevel : string)
    (w : World) :
  let w' := snd (sendLog c logData logLevel w) in
  config w' = config w ∧ contexts w' = contexts w
  ∧ uuid_calls w' = uuid_calls w ∧ clock_reads w' = clock_reads w.
Proof.
  unfold sendLog. destruct (Js.truthy _); [|done].
  destruct (ld_args logData) as [[|a args]|]; done.
Qed.

Lemma logEntry_contexts c context className methodName args logLevel isSensitive w :
  contexts (logEntry c context className methodName args logLevel isSensitive w) = contexts w.
Proof. unfold logEntry. simpl. by rewrite (proj1 (proj2 (sendLog_preserves _ _ _ _))). Qed.

Lemma logEntry_uuid_calls c context className methodName args logLevel isSensitive w :
  uuid_calls (logEntry c context className methodName args logLevel isSensitive w)
  = uuid_calls w.
Proof.
  unfold logEntry. simpl.
  by rewrite (proj1 (proj2 (proj2 (sendLog_preserves _ _ _ _)))).
Qed.

Lemma logExit_contexts c context className methodName logLevel w :
  contexts (logExit c context className methodName logLevel w) = contexts w.
Proof. unfold logExit. simpl. by rewrite (proj1 (proj2 (sendLog_preserves _ _ _ _))). Qed.

Lemma logError_contexts c context className methodName e w :
  contexts (logError c context className methodName e w) = contexts w.
Proof. unfold logError. simpl. by rewrite (proj1 (proj2 (sendLog_preserves _ _ _ _))). Qed.

Lemma LogPath_cleanup_absent (options : LogPathOptions) (this : Owner) (w : World) :
  flag (o_isTopLevel options) = true →
  contexts (LogPath_cleanup options this w) !! this = None.
Proof. unfold LogPath_cleanup. intros ->. simpl. apply lookup_delete_eq. Qed.

End DecoratorProperties.

Section Correlation.
Context `{Host}.

(** The context selection of a call that is not top-level: a new
    identifier, the identifier of the owner's entry as parent when there is
    one, and the new context stored for the owner. *)
Lemma LogPath_context_child (options : LogPathOptions) (this : Owner) (w : World) :
  flag (o_isTopLevel options) = false →
  let context := fst (LogPath_context options this w) in
  let w' := snd (LogPath_context options this w) in
  processId context = uuidv4_nth (uuid_calls w)
  ∧ (∀ prior, contexts w !! this = Some prior → parentId context = Some (processId prior))
  ∧ (contexts w !! this = None → parentId context = None)
  ∧ contexts w' !! this = Some context
  ∧ (∀ other, other ≠ this → contexts w' !! other = contexts w !! other).
Proof.
  intros Htop. unfold LogPath_context. rewrite Htop.
  destruct (contexts w !! this) as [existingContext|] eqn:Hentry; simpl.
  - split; [done|]. split; [by intros ? [= <-]|]. split; [done|].
    split; [by rewrite lookup_insert_eq|].
    intros other Hother. by rewrite lookup_insert_ne.
  - split; [done|]. split; [done|]. split; [done|].
    split; [by rewrite lookup_insert_eq|].
    intros other Hother. by rewrite lookup_insert_ne.
Qed.

(** A top-level call draws a new identifier, has no parent and leaves the
    registry alone. *)
Lemma LogPath_context_top_level (options : LogPathOptions) (this : Owner) (w : World) :
  flag (o_isTopLevel options) = true →
  fst (LogPath_context options this w) = mkContext (uuidv4_nth (uuid_calls w)) None
  ∧ contexts (snd (LogPath_context options this w)) = contexts w.
Proof. intros Htop. unfold LogPath_context. by rewrite Htop. Qed.

(** The decorated method hands [logEntry] the context of [LogPath_context]
    and runs the wrapped method in the state [logEntry] leaves. *)
Lemma LogPath_unfold options className propertyKey (originalMethod : Method) this args w :
  let config := ConfigService.getConfig w in
  let context := fst (LogPath_context options this w) in
  let logLevel := default info (o_logLevel options) in
  let w2 := logEntry config context className propertyKey args logLevel
              (flag (o_isSensitive options)) (snd (LogPath_context options this w)) in
  LogPath options className propertyKey originalMethod this args w
  = match fst (originalMethod this args w2) with
    | Throws e => (Threw e, snd (originalMethod this args w2))
    | PromiseOf p =>
        (Chained p
           (fun result w => (Normal result, logExit config context className propertyKey logLevel w))
           (fun e w => (Abrupt e, logError config context className propertyKey e w))
           (LogPath_cleanup options this),
         snd (originalMethod this args w2))
    | Value result =>
        (Returned result,
         LogPath_cleanup options this
           (logExit config context className propertyKey logLevel
              (snd (originalMethod this args w2))))
    end.
Proof.
  unfold LogPath. destruct (LogPath_context options this w) as [context w1]. simpl.
  by destruct (originalMethod this args _) as [[]].
Qed.

(** A top-level call whose wrapped method returns a value: the owner has no
    entry afterwards. *)
Lemma LogPath_top_level_return options className propertyKey (originalMethod : Method)
    this args w v w' :
  flag (o_isTopLevel options) = true →
  LogPath options className propertyKey originalMethod this args w = (Returned v, w') →
  contexts w' !! this = None.
Proof.
  intros Htop. rewrite LogPath_unfold.
  destruct (fst (originalMethod this args _)); intros [= <- <-] || intros [=].
  by apply LogPath_cleanup_absent.
Qed.

(** A top-level call whose wrapped method returns a promise: however the
    promise settles and whatever runs between the callbacks, the owner has
    no entry once the returned promise has settled, and it settles as the
    wrapped one did. *)
Lemma LogPath_top_level_settled options className propertyKey (originalMethod : Method)
    this args w p onFulfilled onRejected onFinally w' outcome between1 between2 w'' :
  flag (o_isTopLevel options) = true →
  LogPath options className propertyKey originalMethod this args w
  = (Chained p onFulfilled onRejected onFinally, w') →
  let settled := settle (Chained p onFulfilled onRejected onFinally) outcome
                   between1 between2 w'' in
  fst settled = outcome ∧ contexts (snd settled) !! this = None.
Proof.
  intros Htop. rewrite LogPath_unfold.
  destruct (fst (originalMethod this args _)); intros [= <- <- <- <- <-] || intros [=].
  destruct outcome; simpl; (split; [done|by apply LogPath_cleanup_absent]).
Qed.

(** A wrapped method that throws synchronously ends the decorated method at
    once: no record is emitted and nothing is deleted after it. *)
Lemma LogPath_throw options className propertyKey (originalMethod : Method) this args w e :
  let w2 := logEntry (ConfigService.getConfig w) (fst (LogPath_context options this w))
              className propertyKey args (default info (o_logLevel options))
              (flag (o_isSensitive options)) (snd (LogPath_context options this w)) in
  fst (originalMethod this args w2) = Throws e →
  LogPath options className propertyKey originalMethod this args w
  = (Threw e, snd (originalMethod this args w2)).
Proof. intros w2 Hthrow. rewrite LogPath_unfold. fold w2. by rewrite Hthrow. Qed.

(** C5, where the code departs from it: a top-level, synchronous
    [processOrder] calls the decorated [validateOrder] on the same receiver
    and then throws.  The decorated call throws in turn, and the entry that
    [validateOrder] stored for the receiver is still in the registry. *)
Theorem LogPath_top_level_throw_keeps_entry (this : Owner) (args : list JsVal) :
  let outcome :=
    LogPath top_level_info "OrderService" "processOrder" processOrder_rejecting
      this args initial_world in
  fst outcome = Threw (ErrorObject "Error" "order rejected")
  ∧ contexts (snd outcome) !! this = Some (mkContext (uuidv4_nth 1) None).
Proof.
  assert (∀ w, processOrder_rejecting this args w
               = (Throws (ErrorObject "Error" "order rejected"),
                  snd (LogPath child_debug "OrderService" "validateOrder" validateOrder
                         this args w))) as Hbody.
  { intros w. unfold processOrder_rejecting. by destruct (LogPath _ _ _ _ _ _ _). }
  cbv zeta.
  rewrite (LogPath_throw _ _ _ _ _ _ _ (ErrorObject "Error" "order rejected"))
    by by rewrite Hbody.
  rewrite Hbody. split; [done|]. cbn [snd].
  rewrite LogPath_unfold. cbn [validateOrder fst snd].
  unfold LogPath_cleanup, LogPath_context. cbn [child_debug top_level_info o_isTopLevel flag default].
  rewrite logExit_contexts, logEntry_contexts, logEntry_contexts.
  cbn. rewrite lookup_empty. cbn. rewrite lookup_insert_eq.
  by rewrite (proj1 (proj2 (proj2 (sendLog_preserves _ _ _ _)))).
Qed.

End Correlation.

(** ** Emission *)

Section Emission.
Context `{Host}.

(** While the configuration has [devMode] off, [sendLog] returns without
    any output and leaves the record and the state as they were. *)
Lemma sendLog_devMode_off (c : gmap string JsVal) (logData : LogData)
    (logLevel : string) (w : World) :
  Js.truthy (Js.prop c "devMode") = false →
  sendLog c logData logLevel w = (logData, w).
Proof. intros Hdev. unfold sendLog. by rewrite Hdev. Qed.

(** C6, where the code departs from it: with [devMode] off, a record is to
    be forwarded to the one endpoint in single mode, and in multiple mode to
    exactly the endpoints registered for its level (here the two registered
    for [warn]); [sendLog] writes no request in either mode and leaves the
    state as it was. *)
Theorem sendLog_devMode_off_forwards_nothing (logData : LogData) (logLevel : string)
    (w : World) :
  (Spec.deliveries readme_single logData
   = [HttpsRequest "https://logs.example.com" logData]
   ∧ sendLog readme_single logData logLevel w = (logData, w)
   ∧ effects (snd (sendLog readme_single logData logLevel w))
     ≠ (effects w ++ Spec.deliveries readme_single logData)%list)
  ∧ (Spec.deliveries production_multiple warn_record
     = [HttpsRequest "https://warn-logs.example.com" warn_record;
        HttpsRequest "https://audit.example.com" warn_record]
     ∧ sendLog production_multiple warn_record "warn" w = (warn_record, w)
     ∧ effects (snd (sendLog production_multiple warn_record "warn" w))
       ≠ (effects w ++ Spec.deliveries production_multiple warn_record)%list).
Proof.
  assert (∀ (l extra : list Effect), extra ≠ [] → l ≠ (l ++ extra)%list) as Hgrow.
  { intros l extra Hextra Heq. apply (f_equal length) in Heq.
    rewrite length_app in Heq. destruct extra; [done|]. simpl in Heq. lia. }
  split.
  - split; [by vm_compute|].
    rewrite (sendLog_devMode_off readme_single) by by vm_compute.
    split; [done|]. by apply Hgrow.
  - split; [by vm_compute|].
    rewrite (sendLog_devMode_off production_multiple) by by vm_compute.
    split; [done|]. by apply Hgrow.
Qed.

(** With [devMode] on, exactly one line is printed and nothing else is
    done. *)
Lemma sendLog_devMode_on (c : gmap string JsVal) (logData : LogData) (logLevel : string)
    (w : World) :
  Js.truthy (Js.prop c "devMode") = true →
  ∃ line, effects (snd (sendLog c logData logLevel w)) = (effects w ++ [ConsoleLog line])%list.
Proof.
  intros Hdev. unfold sendLog. rewrite Hdev.
  destruct (ld_args logData) as [[|a args]|]; simpl; eauto.
Qed.

(** The message, for a parent identifier that is absent or not empty, is the
    format of the specification at the second reading of the clock. *)
Lemma message_as_specified logLevel processId className methodName action parentId w :
  parentId ≠ Some EmptyString →
  message logLevel processId className methodName action parentId w
  = (Spec.message_format (toISOString (clock_nth (clock_reads w))) logLevel parentId
       processId action className methodName,
     snd (Date_now w)).
Proof.
  intros Hparent. unfold message, Spec.message_format. simpl.
  destruct parentId as [[|c s]|]; simpl; congruence.
Qed.

(** The records of [logEntry] and [logExit] carry the level of the call,
    their own action, and a message built from both. *)
Lemma logEntry_logData_message context className methodName args logLevel isSensitive w :
  let logData := fst (logEntry_logData context className methodName args logLevel isSensitive w) in
  ld_action logData = Enter ∧ ld_logLevel logData = logLevel
  ∧ ld_message logData
    = fst (message (ld_logLevel logData) (processId context) className methodName
             (ld_action logData) (parentId context) (snd (Date_now w))).
Proof. done. Qed.

Lemma logExit_logData_message context className methodName logLevel w :
  let logData := fst (logExit_logData context className methodName logLevel w) in
  ld_action logData = Exit ∧ ld_logLevel logData = logLevel ∧ ld_args logData = None
  ∧ ld_message logData
    = fst (message (ld_logLevel logData) (processId context) className methodName
             (ld_action logData) (parentId context) (snd (Date_now w))).
Proof. done. Qed.

(** Two messages that differ in the action only are different. *)
Lemma message_action_differs logLevel processId className methodName parentId w :
  fst (message logLevel processId className methodName Enter parentId w)
  ≠ fst (message logLevel processId className methodName Error parentId w).
Proof.
  unfold message. simpl. intros Heq.
  destruct (truthy_id parentId);
    repeat apply (inj (String.append _)) in Heq;
    cbv [String.append Action_str] in Heq; discriminate.
Qed.

(** C7, where the code departs from it: the record of [logError] has the
    action [Error] and the level [error], but its message is the one built
    for the action [Enter], which is not the message for the record's own
    action. *)
Theorem logError_message_says_Enter (context : ProcessContext)
    (className methodName : string) (e : Thrown) (w : World) :
  let logData := fst (logError_logData context className methodName e w) in
  ld_action logData = Error
  ∧ ld_logLevel logData = error
  ∧ ld_message logData
    = fst (message error (processId context) className methodName Enter
             (parentId context) (snd (Date_now w)))
  ∧ ld_message logData
    ≠ fst (message (ld_logLevel logData) (processId context) className methodName
             (ld_action logData) (parentId context) (snd (Date_now w))).
Proof.
  cbv zeta. split; [done|]. split; [done|]. split; [done|].
  apply message_action_differs.
Qed.

(** The record of [logEntry] has [args] exactly when the flag it is given
    is off, and nothing [logEntry] does depends on the arguments when the
    flag is on. *)
Lemma logEntry_args_by_sensitivity (options : LogPathOptions) (c : gmap string JsVal)
    (context : ProcessContext) (className methodName : string) (args : list JsVal)
    (logLevel : LogLevel) (w : World) :
  let isSensitive := flag (o_isSensitive options) in
  let logData := fst (logEntry_logData context className methodName args logLevel isSensitive w) in
  ld_action logData = Enter
  ∧ (o_isSensitive options = Some true →
     ld_args logData = None
     ∧ ∀ args',
         logEntry_logData context className methodName args' logLevel isSensitive w
         = logEntry_logData context className methodName args logLevel isSensitive w
         ∧ logEntry c context className methodName args' logLevel isSensitive w
           = logEntry c context className methodName args logLevel isSensitive w)
  ∧ (o_isSensitive options = Some false ∨ o_isSensitive options = None →
     ld_args logData = Some args).
Proof.
  cbv zeta. split; [done|]. split.
  - intros ->. done.
  - by intros [-> | ->].
Qed.

End Emission.

(** ** The records on the example host *)

(** The record of a rejected [processOrder]: action [Error], message
    [Enter]. *)
Example logError_record :
  fst (logError_logData (H := Stub.host)
         (mkContext "00000000-0000-4000-8000-000000000000" None)
         "OrderService" "processOrder" (ErrorObject "Error" "order rejected") initial_world)
  = mkLogData "00000000-0000-4000-8000-000000000000" None error "OrderService"
      "processOrder" Error 1700000000000
      "2023-11-14T22:13:20.001Z [error: 00000000-0000-4000-8000-000000000000]: Enter OrderService.processOrder"
      (Some "order rejected") None.
Proof. vm_compute. reflexivity. Qed.

(** With [devMode] on, the Enter line of a child call names its parent and
    carries the arguments. *)
Example logEntry_console_line :
  effects (logEntry (H := Stub.host) DEFAULT_CONFIG
             (mkContext "00000000-0000-4000-8000-000000000002"
                (Some "00000000-0000-4000-8000-000000000001"))
             "OrderService" "validateOrder" [JNum 42; JBool true] debug false initial_world)
  = [ConsoleLog
       ("2023-11-14T22:13:20.001Z [debug: 00000000-0000-4000-8000-000000000001 > "
        +:+ "00000000-0000-4000-8000-000000000002]: Enter OrderService.validateOrder"
        +:+ " with args [42,true]")].
Proof. vm_compute. reflexivity. Qed.

(** ** The example host's calendar *)

Example iso8601_epoch : Stub.iso8601 0 = "1970-01-01T00:00:00.000Z".
Proof. vm_compute. reflexivity. Qed.

Example iso8601_2023 : Stub.iso8601 1700000000000 = "2023-11-14T22:13:20.000Z".
Proof. vm_compute. reflexivity. Qed.

Example iso8601_leap_day : Stub.iso8601 951827696789 = "2000-02-29T12:34:56.789Z".
Proof. vm_compute. reflexivity. Qed.

Example iso8601_before_epoch : Stub.iso8601 (-1) = "1969-12-31T23:59:59.999Z".
Proof. vm_compute. reflexivity. Qed.

(** * Further properties of the code *)

(** ** Validation, characterised *)

Section ValidationShape.
Import ConfigService.

Lemma isValidLogLevel_levels (v : JsVal) :
  isValidLogLevel v = true → ∃ l, v = JStr (LogLevel_str l).
Proof.
  unfold isValidLogLevel, Js.includes, LogLevel_values.
  destruct v; try done. simpl. intros Hv.
  apply orb_prop in Hv as [Hv|Hv]; [apply String.eqb_eq in Hv as <-; by exists debug|].
  apply orb_prop in Hv as [Hv|Hv]; [apply String.eqb_eq in Hv as <-; by exists info|].
  apply orb_prop in Hv as [Hv|Hv]; [apply String.eqb_eq in Hv as <-; by exists warn|].
  apply orb_prop in Hv as [Hv|Hv]; [apply String.eqb_eq in Hv as <-; by exists error|].
  done.
Qed.

(** X1: [isValidLogLevel] accepts exactly the four level strings: any other
    string (another case, another word) and any value that is not a string
    is refused. *)
Theorem isValidLogLevel_iff (v : JsVal) :
  isValidLogLevel v = true ↔ ∃ l, v = JStr (LogLevel_str l).
Proof.
  split; [apply isValidLogLevel_levels|]. intros [l ->]. by destruct l.
Qed.

Lemma validEndpointParam_entry (x : JsVal) :
  validEndpointParam x = Normal true ↔ well_formed_entry x.
Proof.
  unfold validEndpointParam, well_formed_entry. split.
  - destruct (Js.get x "logLevel") as [logLevel|]; [|done].
    destruct (Js.get x "endpoint") as [endpoint|]; [|done].
    simpl. intros [= Hv]. apply andb_prop in Hv as [Hl He].
    apply isValidLogLevel_levels in Hl as [l ->].
    apply typeof_string in He as [e ->]. eauto.
  - intros (l & e & -> & ->). simpl. by destruct l.
Qed.

Lemma every_elems_entries (elems : list JsVal) :
  Js.every_elems validEndpointParam elems = Normal true ↔ Forall well_formed_entry elems.
Proof.
  induction elems as [|x elems IH]; simpl; [by split|]. split.
  - destruct (validEndpointParam x) as [[]|] eqn:Hx; [|done..]. simpl.
    intros Hrest. constructor; [by apply validEndpointParam_entry|by apply IH].
  - intros [Hx Hrest]%Forall_cons.
    apply validEndpointParam_entry in Hx as ->. simpl. by apply IH.
Qed.

Lemma validateConfig_shape (config : JsVal) :
  validateConfig config = Normal true ↔ valid_single config ∨ valid_multiple config.
Proof.
  split.
  - intros Hv. apply validateConfig_true in Hv as [Hdev [[Hmode Hend] | Hmulti]].
    + left. by repeat split.
    + right. destruct Hmulti as (Hmode & Harr & elems & pr & Hparams & Hevery).
      split; [done|]. split; [done|]. split; [done|].
      exists elems, pr. split; [done|]. by apply every_elems_entries.
  - unfold validateConfig.
    intros [([b ->] & -> & [s ->]) | (Harr & [b ->] & -> & elems & pr & -> & Hall)]; simpl.
    + done.
    + rewrite Harr. simpl. by apply every_elems_entries.
Qed.

(** X2: [validateConfig] returns [true] exactly for a value with the fields of
    a single-endpoint configuration, or for an array object with the
    fields of a multiple-endpoint configuration whose entries all have a
    log level and a string endpoint. *)
Theorem validateConfig_iff (config : JsVal) :
  ConfigService.validateConfig config = Normal true
  ↔ valid_single config ∨ valid_multiple config.
Proof. apply validateConfig_shape. Qed.

Lemma every_elems_app (l1 l2 : list JsVal) :
  Js.every_elems validEndpointParam (l1 ++ l2) = Normal true
  ↔ Js.every_elems validEndpointParam l1 = Normal true
    ∧ Js.every_elems validEndpointParam l2 = Normal true.
Proof. rewrite !every_elems_entries. apply Forall_app. Qed.

End ValidationShape.

(** ** The stored configuration stays a [LogConfig] *)

Section StoredShape.
Import ConfigService.

Lemma named_keys :
  named "devMode" = true ∧ named "logMode" = true
  ∧ named "endpoint" = true ∧ named "endpointParams" = true.
Proof. done. Qed.

(** What [mergeConfig] returns for a stored [LogConfig] and a partial that
    passes validation: the stored fields, overlaid by the incoming ones,
    overlaid by the endpoint field of the resulting mode. *)
Lemma mergeConfig_valid (existing : gmap string JsVal) (c : JsVal) :
  well_formed_config existing →
  validateConfig c = Normal true →
  ∃ last, mergeConfig existing c = Normal (last ∪ (Js.own_enumerable c ∪ existing))
          ∧ well_formed_config (last ∪ (Js.own_enumerable c ∪ existing))
          ∧ ∀ k, k ≠ "endpoint" → k ≠ "endpointParams" → last !! k = None.
Proof.
  intros [[b0 Hdev0] Hshape0] Hv.
  apply validateConfig_shape in Hv
    as [([b Hdev] & Hmode & [s Hend]) | (_ & [b Hdev] & Hmode & elems & pr & Hparams & Hall)].
  - assert (∀ last, last !! "devMode" = None → last !! "logMode" = None →
              (∃ s', Js.prop (last ∪ (Js.own_enumerable c ∪ existing)) "endpoint" = JStr s') →
              well_formed_config (last ∪ (Js.own_enumerable c ∪ existing))) as Hwf.
    { intros last Hl1 Hl2 Hl3. split.
      - exists b. rewrite prop_union_r by done. by apply prop_union_l, own_enumerable_named.
      - left. split; [|done].
        rewrite prop_union_r by done. by apply prop_union_l, own_enumerable_named. }
    destruct Hshape0 as [[Hmode0 _] | [Hmode0 _]].
    + exists ∅. split; [|split].
      * rewrite (left_id_L ∅ (∪)). by apply mergeConfig_stay_single.
      * apply Hwf; [done..|]. exists s. rewrite (left_id_L ∅ (∪)).
        by apply prop_union_l, own_enumerable_named.
      * done.
    + eexists. split; [|split].
      * apply (mergeConfig_to_single _ _ (JStr s)); [by rewrite Hmode0|done..].
      * apply Hwf; [done..|].
        rewrite (prop_union_l _ _ "endpoint" _ (lookup_singleton_eq _ _)).
        unfold Js.or_else. destruct (Js.truthy (JStr s)); eauto.
      * intros k Hk _. by rewrite lookup_singleton_ne.
  - assert (∀ last old, last !! "devMode" = None → last !! "logMode" = None →
              last !! "endpointParams" = Some (JArray old ∅) ∨
              last !! "endpointParams" = Some (JArray old pr) →
              Forall well_formed_entry old →
              well_formed_config (last ∪ (Js.own_enumerable c ∪ existing))) as Hwf.
    { intros last old Hl1 Hl2 Hl3 Hold. split.
      - exists b. rewrite prop_union_r by done. by apply prop_union_l, own_enumerable_named.
      - right. split.
        + rewrite prop_union_r by done. by apply prop_union_l, own_enumerable_named.
        + destruct Hl3 as [Hl3|Hl3]; eexists _, _; (split; [by apply prop_union_l|done]). }
    destruct Hshape0 as [[Hmode0 _] | [Hmode0 (old & po & Hold & Hallold)]].
    + eexists. split; [|split].
      * apply (mergeConfig_to_multiple _ _ elems pr); [by rewrite Hmode0|done..].
      * apply (Hwf _ elems); [done..| |done]. right. by rewrite lookup_singleton_eq.
      * intros k _ Hk. by rewrite lookup_singleton_ne.
    + eexists. split; [|split].
      * by apply (mergeConfig_stay_multiple _ _ old elems po pr).
      * apply (Hwf _ (old ++ elems)%list); [done..| |by apply Forall_app].
        left. by rewrite lookup_singleton_eq.
      * intros k _ Hk. by rewrite lookup_singleton_ne.
Qed.

Lemma DEFAULT_CONFIG_well_formed : well_formed_config DEFAULT_CONFIG.
Proof.
  split; [by exists true|]. left. split; [done|by exists "http://default-endpoint.com"].
Qed.

Lemma setConfig_keeps_well_formed (c : JsVal) (w : World) :
  well_formed_config (config w) → well_formed_config (config (snd (setConfig c w))).
Proof.
  intros Hw. destruct (validateConfig c) as [[]|] eqn:Hv;
    [|unfold setConfig; by rewrite Hv..].
  destruct (mergeConfig_valid _ c Hw Hv) as (last & Hm & Hwf & _).
  by rewrite (setConfig_installs c _ w Hv Hm).
Qed.

Lemma setConfig_all_keeps_well_formed (calls : list JsVal) (w : World) :
  well_formed_config (config w) → well_formed_config (config (setConfig_all calls w)).
Proof.
  unfold setConfig_all. revert w.
  induction calls as [|c calls IH]; intros w Hw; [done|].
  simpl. by apply IH, setConfig_keeps_well_formed.
Qed.

(** X3: from the built-in default, after any run of [setConfig] calls with any
    arguments, accepted or rejected, the stored configuration is a
    [LogConfig]: [devMode] is a boolean and either the mode is single and
    [endpoint] a string, or the mode is multiple and [endpointParams] an
    array whose entries all have a log level and a string endpoint. *)
Theorem setConfig_all_well_formed (calls : list JsVal) :
  well_formed_config (ConfigService.getConfig (setConfig_all calls initial_world)).
Proof. apply setConfig_all_keeps_well_formed, DEFAULT_CONFIG_well_formed. Qed.

(** X4: on a stored [LogConfig], a partial that passes validation is always
    installed: [mergeConfig] does not throw, only the configuration
    changes (no output, the registry and the counters as they were), and
    every stored field other than [endpoint] and [endpointParams] that the
    partial does not carry keeps its value. *)
Theorem setConfig_valid_installs (c : JsVal) (w : World) :
  well_formed_config (ConfigService.getConfig w) →
  ConfigService.validateConfig c = Normal true →
  ∃ merged,
    ConfigService.setConfig c w = (Normal tt, set_config merged w)
    ∧ well_formed_config merged
    ∧ ∀ k, k ≠ "endpoint" → k ≠ "endpointParams" →
           Js.own_enumerable c !! k = None → merged !! k = ConfigService.getConfig w !! k.
Proof.
  intros Hw Hv. destruct (mergeConfig_valid _ c Hw Hv) as (last & Hm & Hwf & Hlast).
  eexists. split; [by apply setConfig_installs|]. split; [done|].
  intros k Hk1 Hk2 Hown. rewrite lookup_union_r by by apply Hlast.
  by rewrite lookup_union_r.
Qed.

End StoredShape.

Lemma setConfig_valid_installs_witness :
  well_formed_config (ConfigService.getConfig world_AB)
  ∧ ConfigService.validateConfig single_with_tag = Normal true
  ∧ ∃ merged,
      ConfigService.setConfig single_with_tag world_AB = (Normal tt, set_config merged world_AB)
      ∧ well_formed_config merged
      ∧ ∀ k, k ≠ "endpoint" → k ≠ "endpointParams" →
             Js.own_enumerable single_with_tag !! k = None →
             merged !! k = ConfigService.getConfig world_AB !! k.
Proof.
  assert (well_formed_config (ConfigService.getConfig world_AB)) as Hw.
  { apply (setConfig_all_keeps_well_formed [multiple_on_array [entryA; entryB]]),
      DEFAULT_CONFIG_well_formed. }
  split; [exact Hw|]. split; [by vm_compute|].
  apply (setConfig_valid_installs single_with_tag world_AB Hw). by vm_compute.
Defined.

(** ** Setting, reading back and setting again *)

Section RoundTrips.
Import ConfigService.

Lemma set_config_same (w : World) : set_config (config w) w = w.
Proof. by destruct w. Qed.

(** X5: passing the stored configuration back to [setConfig]: in single mode
    the call is accepted and changes nothing; in multiple mode it is
    rejected, the stored configuration being a plain object and not an
    array. *)
Theorem setConfig_getConfig (w : World) :
  well_formed_config (ConfigService.getConfig w) →
  (Js.prop (ConfigService.getConfig w) "logMode" = JStr "single" →
   ConfigService.setConfig (JObject (ConfigService.getConfig w)) w = (Normal tt, w))
  ∧ (Js.prop (ConfigService.getConfig w) "logMode" = JStr "multiple" →
     ConfigService.setConfig (JObject (ConfigService.getConfig w)) w
     = (Abrupt ConfigService.invalid_config, w)).
Proof.
  unfold getConfig. intros [[b Hdev] Hshape]. split; intros Hmode.
  - destruct Hshape as [[_ [s Hend]] | [Hmulti _]]; [|congruence].
    assert (validateConfig (JObject (config w)) = Normal true) as Hv.
    { apply validateConfig_shape. left. unfold valid_single. simpl.
      rewrite Hdev, Hmode, Hend. eauto. }
    rewrite (setConfig_installs _ _ w Hv
               (mergeConfig_stay_single _ (JObject (config w)) Hmode
                  ltac:(simpl; by rewrite Hmode))).
    simpl. by rewrite (idemp_L (∪)), set_config_same.
  - unfold setConfig.
    rewrite (validateConfig_not_array (JObject (config w)) eq_refl)
      by (simpl; by rewrite Hmode).
    done.
Qed.

(** X6: in single mode, a valid single-mode partial is read back as it was
    set ([devMode], [logMode] and [endpoint] are the incoming ones), and
    setting it a second time changes nothing. *)
Theorem setConfig_single_idempotent (c : JsVal) (w : World) :
  Js.prop (ConfigService.getConfig w) "logMode" = JStr "single" →
  valid_single c →
  ∃ w1, ConfigService.setConfig c w = (Normal tt, w1)
        ∧ Js.get c "devMode" = Normal (Js.prop (ConfigService.getConfig w1) "devMode")
        ∧ Js.get c "logMode" = Normal (Js.prop (ConfigService.getConfig w1) "logMode")
        ∧ Js.get c "endpoint" = Normal (Js.prop (ConfigService.getConfig w1) "endpoint")
        ∧ ConfigService.setConfig c w1 = (Normal tt, w1).
Proof.
  intros Hmode0 Hc.
  assert (validateConfig c = Normal true) as Hv by (apply validateConfig_shape; by left).
  destruct Hc as ([b Hdev] & Hmode & [s Hend]).
  pose proof (mergeConfig_stay_single _ c Hmode0 Hmode) as Hm.
  exists (set_config (Js.own_enumerable c ∪ getConfig w) w).
  split; [by apply setConfig_installs|]. simpl.
  rewrite (prop_union_l _ _ "devMode" (JBool b)) by by apply own_enumerable_named.
  rewrite (prop_union_l _ _ "logMode" (JStr "single")) by by apply own_enumerable_named.
  rewrite (prop_union_l _ _ "endpoint" (JStr s)) by by apply own_enumerable_named.
  split; [done|]. split; [done|]. split; [done|].
  erewrite setConfig_installs; [|done|].
  2: { apply mergeConfig_stay_single; [|done]. simpl.
       by apply prop_union_l, own_enumerable_named. }
  f_equal. unfold set_config. simpl. f_equal.
  by rewrite (assoc_L (∪)), (idemp_L (∪)).
Qed.

(** X7: a change of mode to single with an empty endpoint stores the endpoint
    of the built-in default; the same partial set again, the mode now
    being single, stores the empty endpoint. *)
Theorem setConfig_empty_endpoint (c : JsVal) (w : World) :
  Js.prop (ConfigService.getConfig w) "logMode" = JStr "multiple" →
  valid_single c →
  Js.get c "endpoint" = Normal (JStr EmptyString) →
  ∃ w1 w2,
    ConfigService.setConfig c w = (Normal tt, w1)
    ∧ Js.prop (ConfigService.getConfig w1) "endpoint" = JStr "http://default-endpoint.com"
    ∧ ConfigService.setConfig c w1 = (Normal tt, w2)
    ∧ Js.prop (ConfigService.getConfig w2) "endpoint" = JStr EmptyString.
Proof.
  intros Hmode0 Hc Hend.
  assert (validateConfig c = Normal true) as Hv by (apply validateConfig_shape; by left).
  destruct Hc as (_ & Hmode & _).
  eexists. eexists. split; [|split; [|split]].
  - apply setConfig_installs; [done|].
    apply (mergeConfig_to_single _ _ (JStr EmptyString)); [by rewrite Hmode0|done..].
  - simpl. by apply prop_union_l.
  - apply setConfig_installs; [done|].
    apply mergeConfig_stay_single; [|done]. simpl.
    rewrite prop_union_r by done. by apply prop_union_l, own_enumerable_named.
  - simpl. by apply prop_union_l, own_enumerable_named.
Qed.

(** X8: a change of mode does not remove the field of the mode that is left:
    after a change to multiple mode the stored configuration still has the
    [endpoint] it had, and after a change to single mode the
    [endpointParams] it had, unless the partial carries a field of that
    name itself. *)
Theorem setConfig_switch_keeps_other_field (c : JsVal) (w : World) :
  ConfigService.validateConfig c = Normal true →
  (∀ s, Js.prop (ConfigService.getConfig w) "logMode" = JStr "single" →
        Js.prop (ConfigService.getConfig w) "endpoint" = JStr s →
        Js.get c "logMode" = Normal (JStr "multiple") →
        Js.own_enumerable c !! "endpoint" = None →
        ∃ w1, ConfigService.setConfig c w = (Normal tt, w1)
              ∧ Js.prop (ConfigService.getConfig w1) "logMode" = JStr "multiple"
              ∧ Js.prop (ConfigService.getConfig w1) "endpoint" = JStr s)
  ∧ (∀ old po, Js.prop (ConfigService.getConfig w) "logMode" = JStr "multiple" →
        Js.prop (ConfigService.getConfig w) "endpointParams" = JArray old po →
        Js.get c "logMode" = Normal (JStr "single") →
        Js.own_enumerable c !! "endpointParams" = None →
        ∃ w1, ConfigService.setConfig c w = (Normal tt, w1)
              ∧ Js.prop (ConfigService.getConfig w1) "logMode" = JStr "single"
              ∧ Js.prop (ConfigService.getConfig w1) "endpointParams" = JArray old po).
Proof.
  intros Hv. split.
  - intros s Hmode0 Hend0 Hmode Hown.
    destruct (validateConfig_true c Hv) as [_ [[Hm _] | (_ & _ & elems & pr & Hp & _)]];
      [congruence|].
    eexists. split; [|split].
    + apply setConfig_installs; [done|].
      apply (mergeConfig_to_multiple _ _ elems pr); [by rewrite Hmode0|done..].
    + simpl. rewrite prop_union_r by done. by apply prop_union_l, own_enumerable_named.
    + simpl. rewrite prop_union_r by done. by rewrite prop_union_r.
  - intros old po Hmode0 Hold Hmode Hown.
    destruct (validateConfig_true c Hv) as [_ [[_ [s Hend]] | [Hm _]]]; [|congruence].
    eexists. split; [|split].
    + apply setConfig_installs; [done|].
      apply (mergeConfig_to_single _ _ (JStr s)); [by rewrite Hmode0|done..].
    + simpl. rewrite prop_union_r by done. by apply prop_union_l, own_enumerable_named.
    + simpl. rewrite prop_union_r by done. by rewrite prop_union_r.
Qed.

Lemma get_throws_TypeError (v : JsVal) (k : string) (e : Thrown) :
  Js.get v k = Abrupt e → e = Js.TypeError.
Proof. destruct v; simpl; congruence. Qed.

Lemma every_elems_throws_TypeError (elems : list JsVal) (e : Thrown) :
  Js.every_elems validEndpointParam elems = Abrupt e → e = Js.TypeError.
Proof.
  induction elems as [|x elems IH]; [done|]. simpl.
  destruct (validEndpointParam x) as [[]|e'] eqn:Hx; simpl; [done|done|].
  intros [= <-]. unfold validEndpointParam in Hx.
  destruct (Js.get x "logLevel") eqn:Hl; simpl in Hx;
    [|injection Hx as <-; by eapply get_throws_TypeError].
  destruct (Js.get x "endpoint") eqn:He; simpl in Hx; [done|].
  injection Hx as <-. by eapply get_throws_TypeError.
Qed.

(** Validation throws nothing but the engine's TypeError. *)
Lemma validateConfig_throws_TypeError (c : JsVal) (e : Thrown) :
  validateConfig c = Abrupt e → e = Js.TypeError.
Proof.
  unfold validateConfig.
  destruct (Js.get c "devMode") as [devMode|e1] eqn:Hdev; simpl;
    [|intros [= <-]; by eapply get_throws_TypeError].
  destruct (Js.get c "logMode") as [logMode|e1] eqn:Hmode; simpl;
    [|intros [= <-]; by eapply get_throws_TypeError].
  case_match; [done|]. case_match.
  - destruct (Js.get c "endpoint") as [endpoint|e1] eqn:Hend; simpl; [done|].
    intros [= <-]. by eapply get_throws_TypeError.
  - case_match; [|done].
    destruct (Js.get c "endpointParams") as [endpointParams|e1] eqn:Hp; simpl;
      [|intros [= <-]; by eapply get_throws_TypeError].
    destruct endpointParams; simpl; try (by intros [= <-]).
    apply every_elems_throws_TypeError.
Qed.

End RoundTrips.

(** ** Errors of the configuration store *)

Section StoreErrors.
Import ConfigService.

(** X9: [setConfig] throws one of two errors and nothing else: its own
    "invalid config" error, which is the one every argument other than
    [undefined], [null] and an array gets when it does not pass
    validation, or the engine's TypeError, which is what [undefined] and
    [null] get.  In both cases the state is left as it was. *)
Theorem setConfig_errors (c : JsVal) (w : World) :
  ConfigService.validateConfig c ≠ Normal true →
  (ConfigService.setConfig c w = (Abrupt ConfigService.invalid_config, w)
   ∨ ConfigService.setConfig c w = (Abrupt Js.TypeError, w))
  ∧ (Js.isArray c = false → c ≠ JUndefined → c ≠ JNull →
     ConfigService.setConfig c w = (Abrupt ConfigService.invalid_config, w))
  ∧ (c = JUndefined ∨ c = JNull →
     ConfigService.setConfig c w = (Abrupt Js.TypeError, w)).
Proof.
  intros Hv. split; [|split].
  - unfold setConfig. destruct (validateConfig c) as [[]|e] eqn:Hc; [done|by left|].
    right. by rewrite (validateConfig_throws_TypeError c e Hc).
  - intros Harr Hu Hn. unfold setConfig.
    destruct (validateConfig c) as [[]|e] eqn:Hc; [done|done|].
    exfalso. revert Hc. unfold validateConfig.
    destruct c as [| | | | |props|elems props]; try done; simpl;
      repeat (case_match; simpl; try done).
  - by intros [-> | ->].
Qed.

(** X10: [initLogPath] lets no error out: for an argument that does not pass
    validation the state afterwards is the state before with one report
    on the error console, carrying what [setConfig] threw; on a stored
    [LogConfig], an argument that passes is installed without any
    output. *)
Theorem initLogPath_reports (params : JsVal) (w : World) :
  (ConfigService.validateConfig params ≠ Normal true →
   ∃ e, initLogPath params w = emit (ConsoleError "Failed to initialize log path" e) w
        ∧ (e = ConfigService.invalid_config ∨ e = Js.TypeError))
  ∧ (well_formed_config (ConfigService.getConfig w) →
     ConfigService.validateConfig params = Normal true →
     ∃ merged, initLogPath params w = set_config merged w ∧ well_formed_config merged).
Proof.
  unfold initLogPath. split.
  - intros Hv. unfold setConfig.
    destruct (validateConfig params) as [[]|e] eqn:Hc; [done|eauto|].
    exists e. split; [done|]. right. by eapply validateConfig_throws_TypeError.
  - intros Hw Hv. destruct (mergeConfig_valid _ params Hw Hv) as (last & Hm & Hwf & _).
    rewrite (setConfig_installs params _ w Hv Hm). eauto.
Qed.

End StoreErrors.

(** ** What a decorated call writes and when *)

Section Records.
Context `{Host}.

Lemma sendLog_effects (c : gmap string JsVal) (logData : LogData) (logLevel : string)
    (w : World) :
  effects (snd (sendLog c logData logLevel w))
  = (effects w ++ if Js.truthy (Js.prop c "devMode") then [ConsoleLog (printed logData)]
                  else [])%list.
Proof.
  unfold sendLog, printed. destruct (Js.truthy _); [|by rewrite app_nil_r].
  by destruct (ld_args logData) as [[|a args]|].
Qed.

Lemma sendLog_clock (c : gmap string JsVal) (logData : LogData) (logLevel : string)
    (w : World) :
  clock_reads (snd (sendLog c logData logLevel w)) = clock_reads w.
Proof. apply sendLog_preserves. Qed.

(** X11: each of the three log functions reads the clock twice and does nothing
    else to the state than print at most one line: the line of its record
    when the configuration it is given has [devMode] on, nothing when it is
    off.  The stored configuration, the registry and the identifiers drawn
    are as they were. *)
Theorem log_functions_footprint (c : gmap string JsVal) (context : ProcessContext)
    (className methodName : string) (args : list JsVal) (logLevel : LogLevel)
    (isSensitive : bool) (e : Thrown) (w : World) :
  let out (logData : LogData) : list Effect :=
    if Js.truthy (Js.prop c "devMode") then [ConsoleLog (printed logData)] else [] in
  let rest (w' : World) :=
    config w' = config w ∧ contexts w' = contexts w ∧ uuid_calls w' = uuid_calls w
    ∧ clock_reads w' = S (S (clock_reads w)) in
  (effects (logEntry c context className methodName args logLevel isSensitive w)
   = (effects w ++ out (fst (logEntry_logData context className methodName args logLevel
                               isSensitive w)))%list
   ∧ rest (logEntry c context className methodName args logLevel isSensitive w))
  ∧ (effects (logExit c context className methodName logLevel w)
     = (effects w ++ out (fst (logExit_logData context className methodName logLevel w)))%list
     ∧ rest (logExit c context className methodName logLevel w))
  ∧ (effects (logError c context className methodName e w)
     = (effects w ++ out (fst (logError_logData context className methodName e w)))%list
     ∧ rest (logError c context className methodName e w)).
Proof.
  cbv zeta. unfold logEntry, logExit, logError. simpl.
  rewrite !sendLog_effects.
  repeat match goal with
         | |- context [snd (sendLog ?a ?b ?c ?d)] =>
             let Hp := fresh in
             destruct (sendLog_preserves a b c d) as (? & ? & ? & Hp);
             generalize dependent (snd (sendLog a b c d)); intros
         end.
  simpl in *. repeat split; congruence.
Qed.

Lemma LogPath_context_frame (options : LogPathOptions) (this : Owner) (w : World) :
  let w1 := snd (LogPath_context options this w) in
  config w1 = config w ∧ effects w1 = effects w ∧ clock_reads w1 = clock_reads w
  ∧ uuid_calls w1 = S (uuid_calls w)
  ∧ processId (fst (LogPath_context options this w)) = uuidv4_nth (uuid_calls w).
Proof.
  unfold LogPath_context. destruct (flag _); [done|].
  by destruct (contexts w !! this).
Qed.

Lemma LogPath_cleanup_frame (options : LogPathOptions) (this : Owner) (w : World) :
  let w' := LogPath_cleanup options this w in
  config w' = config w ∧ effects w' = effects w
  ∧ contexts w' = if flag (o_isTopLevel options) then delete this (contexts w) else contexts w.
Proof. unfold LogPath_cleanup. by destruct (flag _). Qed.

(** X12: a decorated call whose wrapped method returns a value: the call
    returns that value; the Enter line is written before the wrapped method
    starts and the Exit line after it has returned, both according to the
    configuration read when the call began, whatever the configuration is
    by then; the registry is the one the wrapped method left, without the
    owner's entry when the call is top-level. *)
Theorem LogPath_return_writes (options : LogPathOptions) (className propertyKey : string)
    (originalMethod : Method) (this : Owner) (args : list JsVal) (w : World) (v : JsVal) :
  let context := fst (LogPath_context options this w) in
  let logLevel := default info (o_logLevel options) in
  let isSensitive := flag (o_isSensitive options) in
  let w1 := snd (LogPath_context options this w) in
  let w2 := logEntry (ConfigService.getConfig w) context className propertyKey args logLevel
              isSensitive w1 in
  let w3 := snd (originalMethod this args w2) in
  let w4 := snd (LogPath options className propertyKey originalMethod this args w) in
  let out (logData : LogData) : list Effect :=
    if Js.truthy (Js.prop (ConfigService.getConfig w) "devMode")
    then [ConsoleLog (printed logData)] else [] in
  fst (originalMethod this args w2) = Value v →
  fst (LogPath options className propertyKey originalMethod this args w) = Returned v
  ∧ effects w2
    = (effects w ++ out (fst (logEntry_logData context className propertyKey args logLevel
                                isSensitive w1)))%list
  ∧ effects w4
    = (effects w3 ++ out (fst (logExit_logData context className propertyKey logLevel w3)))%list
  ∧ config w4 = config w3
  ∧ contexts w4
    = if flag (o_isTopLevel options) then delete this (contexts w3) else contexts w3.
Proof.
  cbv zeta. intros Hbody. rewrite LogPath_unfold, Hbody. cbn [fst snd].
  destruct (LogPath_cleanup_frame options this
              (logExit (ConfigService.getConfig w) (fst (LogPath_context options this w))
                 className propertyKey (default info (o_logLevel options))
                 (snd (originalMethod this args
                         (logEntry (ConfigService.getConfig w)
                            (fst (LogPath_context options this w)) className propertyKey args
                            (default info (o_logLevel options)) (flag (o_isSensitive options))
                            (snd (LogPath_context options this w)))))))
    as (-> & -> & ->).
  rewrite logExit_contexts.
  split; [done|]. split; [|split; [|split; [|done]]].
  - unfold logEntry. simpl. rewrite sendLog_effects. simpl.
    by rewrite (proj1 (proj2 (LogPath_context_frame options this w))).
  - unfold logExit. simpl. by rewrite sendLog_effects.
  - unfold logExit. simpl. by rewrite (proj1 (sendLog_preserves _ _ _ _)).
Qed.

(** X13: a decorated call whose wrapped method throws: the same value is thrown
    on, and the call does nothing after the wrapped method: no Exit and no
    Error line, and no entry removed, top-level or not. *)
Theorem LogPath_throw_writes (options : LogPathOptions) (className propertyKey : string)
    (originalMethod : Method) (this : Owner) (args : list JsVal) (w : World) (e : Thrown) :
  let w2 := logEntry (ConfigService.getConfig w) (fst (LogPath_context options this w))
              className propertyKey args (default info (o_logLevel options))
              (flag (o_isSensitive options)) (snd (LogPath_context options this w)) in
  fst (originalMethod this args w2) = Throws e →
  LogPath options className propertyKey originalMethod this args w
  = (Threw e, snd (originalMethod this args w2))
  ∧ effects (snd (LogPath options className propertyKey originalMethod this args w))
    = effects (snd (originalMethod this args w2))
  ∧ contexts (snd (LogPath options className propertyKey originalMethod this args w))
    = contexts (snd (originalMethod this args w2)).
Proof. cbv zeta. intros Hbody. rewrite LogPath_unfold, Hbody. done. Qed.

(** X14: a decorated call whose wrapped method returns a promise: the promise
    the call returns settles as the wrapped one does, fulfilled with the
    same value or rejected with the same reason; settling writes exactly
    one record, Exit on fulfilment and Error on rejection, according to the
    configuration read when the call began; afterwards the owner's entry
    is removed when the call is top-level and the registry is untouched
    otherwise. *)
Theorem LogPath_settle_writes (options : LogPathOptions) (className propertyKey : string)
    (originalMethod : Method) (this : Owner) (args : list JsVal) (w : World) (p : nat)
    (outcome : Completion JsVal) (w' : World) :
  let context := fst (LogPath_context options this w) in
  let logLevel := default info (o_logLevel options) in
  let w2 := logEntry (ConfigService.getConfig w) context className propertyKey args logLevel
              (flag (o_isSensitive options)) (snd (LogPath_context options this w)) in
  let settled :=
    settle (fst (LogPath options className propertyKey originalMethod this args w)) outcome
      id id w' in
  let out (logData : LogData) : list Effect :=
    if Js.truthy (Js.prop (ConfigService.getConfig w) "devMode")
    then [ConsoleLog (printed logData)] else [] in
  fst (originalMethod this args w2) = PromiseOf p →
  snd (LogPath options className propertyKey originalMethod this args w)
  = snd (originalMethod this args w2)
  ∧ fst settled = outcome
  ∧ effects (snd settled)
    = (effects w'
       ++ out match outcome with
              | Normal _ => fst (logExit_logData context className propertyKey logLevel w')
              | Abrupt e => fst (logError_logData context className propertyKey e w')
              end)%list
  ∧ contexts (snd settled)
    = if flag (o_isTopLevel options) then delete this (contexts w') else contexts w'.
Proof.
  cbv zeta. intros Hbody. rewrite LogPath_unfold, Hbody. cbn [fst snd settle].
  split; [done|].
  destruct outcome as [result|e]; cbn [fst snd id].
  - destruct (LogPath_cleanup_frame options this
                (logExit (ConfigService.getConfig w) (fst (LogPath_context options this w))
                   className propertyKey (default info (o_logLevel options)) w'))
      as (_ & -> & ->).
    rewrite logExit_contexts. split; [done|]. split; [|done].
    unfold logExit. simpl. by rewrite sendLog_effects.
  - destruct (LogPath_cleanup_frame options this
                (logError (ConfigService.getConfig w) (fst (LogPath_context options this w))
                   className propertyKey e w'))
      as (_ & -> & ->).
    rewrite logError_contexts. split; [done|]. split; [|done].
    unfold logError. simpl. by rewrite sendLog_effects.
Qed.

End Records.

(** ** Who becomes whose parent *)

Section Parents.
Context `{Host}.

Lemma LogPath_context_child_parent (options : LogPathOptions) (this : Owner) (w : World) :
  flag (o_isTopLevel options) = false →
  parentId (fst (LogPath_context options this w)) = processId <$> contexts w !! this
  ∧ contexts (snd (LogPath_context options this w)) !! this
    = Some (fst (LogPath_context options this w)).
Proof.
  intros Htop. unfold LogPath_context. rewrite Htop.
  destruct (contexts w !! this); simpl; by rewrite lookup_insert_eq.
Qed.

(** X15: a call that is not top-level never removes its entry: whether the
    wrapped method returns, throws or returns a promise, as long as the
    wrapped method itself leaves the owner's entry alone, the entry stored
    for the owner after the call is the context of the call, so the next
    call on the same owner that is not top-level has this call as its
    parent, also when this call has completed long before. *)
Theorem LogPath_child_is_next_parent (options next : LogPathOptions)
    (className propertyKey : string) (originalMethod : Method) (this : Owner)
    (args : list JsVal) (w : World) :
  flag (o_isTopLevel options) = false →
  flag (o_isTopLevel next) = false →
  (∀ w0, contexts (snd (originalMethod this args w0)) !! this = contexts w0 !! this) →
  let context := fst (LogPath_context options this w) in
  let w' := snd (LogPath options className propertyKey originalMethod this args w) in
  contexts w' !! this = Some context
  ∧ parentId (fst (LogPath_context next this w')) = Some (processId context).
Proof.
  intros Htop Hnext Hbody. cbv zeta.
  assert (contexts (snd (LogPath options className propertyKey originalMethod this args w))
          !! this = Some (fst (LogPath_context options this w))) as Hentry.
  { rewrite LogPath_unfold.
    destruct (fst (originalMethod this args _)); cbn [snd];
      [unfold LogPath_cleanup; rewrite Htop, logExit_contexts|..];
      rewrite Hbody, logEntry_contexts;
      by apply LogPath_context_child_parent. }
  split; [done|].
  rewrite (proj1 (LogPath_context_child_parent next this _ Hnext)).
  by rewrite Hentry.
Qed.

End Parents.

(** ** The further properties on examples *)

Lemma setConfig_getConfig_witness :
  well_formed_config (ConfigService.getConfig initial_world)
  ∧ well_formed_config (ConfigService.getConfig world_AB)
  ∧ ConfigService.setConfig (JObject (ConfigService.getConfig initial_world)) initial_world
    = (Normal tt, initial_world)
  ∧ ConfigService.setConfig (JObject (ConfigService.getConfig world_AB)) world_AB
    = (Abrupt ConfigService.invalid_config, world_AB).
Proof.
  assert (well_formed_config (ConfigService.getConfig initial_world)) as H0
    by apply DEFAULT_CONFIG_well_formed.
  assert (well_formed_config (ConfigService.getConfig world_AB)) as H1.
  { apply (setConfig_all_keeps_well_formed [multiple_on_array [entryA; entryB]]),
      DEFAULT_CONFIG_well_formed. }
  split; [exact H0|]. split; [exact H1|]. split.
  - apply (proj1 (setConfig_getConfig initial_world H0)). reflexivity.
  - apply (proj2 (setConfig_getConfig world_AB H1)). by vm_compute.
Defined.

Lemma setConfig_single_idempotent_witness :
  Js.prop (ConfigService.getConfig initial_world) "logMode" = JStr "single"
  ∧ valid_single (JObject readme_single)
  ∧ ∃ w1, ConfigService.setConfig (JObject readme_single) initial_world = (Normal tt, w1)
          ∧ Js.get (JObject readme_single) "devMode"
            = Normal (Js.prop (ConfigService.getConfig w1) "devMode")
          ∧ Js.get (JObject readme_single) "logMode"
            = Normal (Js.prop (ConfigService.getConfig w1) "logMode")
          ∧ Js.get (JObject readme_single) "endpoint"
            = Normal (Js.prop (ConfigService.getConfig w1) "endpoint")
          ∧ ConfigService.setConfig (JObject readme_single) w1 = (Normal tt, w1).
Proof.
  assert (valid_single (JObject readme_single)) as Hc.
  { split; [by exists false|]. split; [done|]. by exists "https://logs.example.com". }
  split; [reflexivity|]. split; [exact Hc|].
  exact (setConfig_single_idempotent (JObject readme_single) initial_world eq_refl Hc).
Defined.

Lemma setConfig_empty_endpoint_witness :
  Js.prop (ConfigService.getConfig world_AB) "logMode" = JStr "multiple"
  ∧ valid_single single_empty_endpoint
  ∧ ∃ w1 w2,
      ConfigService.setConfig single_empty_endpoint world_AB = (Normal tt, w1)
      ∧ Js.prop (ConfigService.getConfig w1) "endpoint" = JStr "http://default-endpoint.com"
      ∧ ConfigService.setConfig single_empty_endpoint w1 = (Normal tt, w2)
      ∧ Js.prop (ConfigService.getConfig w2) "endpoint" = JStr EmptyString.
Proof.
  assert (valid_single single_empty_endpoint) as Hc.
  { split; [by exists true|]. split; [done|]. by exists EmptyString. }
  assert (Js.prop (ConfigService.getConfig world_AB) "logMode" = JStr "multiple") as Hm
    by by vm_compute.
  split; [exact Hm|]. split; [exact Hc|].
  exact (setConfig_empty_endpoint single_empty_endpoint world_AB Hm Hc eq_refl).
Defined.

Lemma setConfig_errors_witness :
  ConfigService.validateConfig (JObject readme_multiple) ≠ Normal true
  ∧ ConfigService.setConfig (JObject readme_multiple) world_AB
    = (Abrupt ConfigService.invalid_config, world_AB).
Proof.
  assert (ConfigService.validateConfig (JObject readme_multiple) ≠ Normal true) as Hv
    by by vm_compute.
  split; [exact Hv|].
  apply (proj1 (proj2 (setConfig_errors (JObject readme_multiple) world_AB Hv))); done.
Defined.

Lemma initLogPath_reports_witness :
  ConfigService.validateConfig JNull ≠ Normal true
  ∧ ∃ e, initLogPath JNull initial_world
         = emit (ConsoleError "Failed to initialize log path" e) initial_world
         ∧ (e = ConfigService.invalid_config ∨ e = Js.TypeError).
Proof.
  assert (ConfigService.validateConfig JNull ≠ Normal true) as Hv by by vm_compute.
  split; [exact Hv|].
  exact (proj1 (initLogPath_reports JNull initial_world) Hv).
Defined.

(** The wrapped method turns [devMode] off while it runs; the Exit line
    of the call is printed all the same. *)
Lemma LogPath_return_writes_witness :
  let outcome :=
    LogPath (H := Stub.host) top_level_info "OrderService" "processOrder" reconfiguring
      7%positive [] initial_world in
  fst outcome = Returned JUndefined
  ∧ Js.prop (config (snd outcome)) "devMode" = JBool false
  ∧ effects (snd outcome)
    = [ConsoleLog
         ("2023-11-14T22:13:20.001Z [info: 00000000-0000-4000-8000-000000000000]: "
          +:+ "Enter OrderService.processOrder");
       ConsoleLog
         ("2023-11-14T22:13:20.003Z [info: 00000000-0000-4000-8000-000000000000]: "
          +:+ "Exit OrderService.processOrder")].
Proof.
  destruct (LogPath_return_writes (H := Stub.host) top_level_info "OrderService"
              "processOrder" reconfiguring 7%positive [] initial_world JUndefined eq_refl)
    as (Hr & _ & He & Hc & _).
  split; [exact Hr|]. split.
  - rewrite Hc. by vm_compute.
  - rewrite He. by vm_compute.
Defined.

(** Enter of [processOrder], Enter and Exit of [validateOrder], and
    nothing after the throw. *)
Lemma LogPath_throw_writes_witness :
  let call :=
    LogPath (H := Stub.host) top_level_info "OrderService" "processOrder"
      (processOrder_rejecting (H := Stub.host)) 7%positive [] initial_world in
  fst call = Threw (ErrorObject "Error" "order rejected")
  ∧ length (effects (snd call)) = 3.
Proof.
  cbv zeta.
  destruct (LogPath_throw_writes (H := Stub.host) top_level_info "OrderService"
              "processOrder" (processOrder_rejecting (H := Stub.host)) 7%positive []
              initial_world (ErrorObject "Error" "order rejected") eq_refl)
    as (Hcall & He & _).
  split; [by rewrite Hcall|]. rewrite He. by vm_compute.
Defined.

(** A rejected promise: one line, written by [logError], and the entry of
    the owner removed. *)
Lemma LogPath_settle_writes_witness :
  let w := set_contexts {[ 7%positive := mkContext "stale" None ]} initial_world in
  let call :=
    LogPath (H := Stub.host) top_level_info "OrderService" "processOrder" pending
      7%positive [] w in
  let settled :=
    settle (fst call) (Abrupt (ErrorObject "Error" "timeout")) id id (snd call) in
  fst settled = Abrupt (ErrorObject "Error" "timeout")
  ∧ length (effects (snd settled)) = 2
  ∧ contexts (snd settled) !! 7%positive = None.
Proof.
  cbv zeta.
  destruct (LogPath_settle_writes (H := Stub.host) top_level_info "OrderService"
              "processOrder" pending 7%positive []
              (set_contexts {[ 7%positive := mkContext "stale" None ]} initial_world) 0
              (Abrupt (ErrorObject "Error" "timeout"))
              (snd (LogPath (H := Stub.host) top_level_info "OrderService" "processOrder"
                      pending 7%positive []
                      (set_contexts {[ 7%positive := mkContext "stale" None ]}
                         initial_world)))
              eq_refl)
    as (_ & Ho & He & Hc).
  split; [exact Ho|]. split.
  - rewrite He. by vm_compute.
  - rewrite Hc. by vm_compute.
Defined.

Lemma LogPath_child_is_next_parent_witness :
  let w' :=
    snd (LogPath (H := Stub.host) child_debug "OrderService" "validateOrder" validateOrder
           7%positive [] initial_world) in
  contexts w' !! 7%positive = Some (mkContext "00000000-0000-4000-8000-000000000000" None)
  ∧ parentId (fst (LogPath_context (H := Stub.host) child_debug 7%positive w'))
    = Some "00000000-0000-4000-8000-000000000000".
Proof.
  exact (LogPath_child_is_next_parent (H := Stub.host) child_debug child_debug
           "OrderService" "validateOrder" validateOrder 7%positive [] initial_world
           eq_refl eq_refl (fun _ => eq_refl)).
Defined.

Lemma setConfig_switch_keeps_other_field_witness :
  ConfigService.validateConfig (multiple_on_array [entryC]) = Normal true
  ∧ ∃ w1, ConfigService.setConfig (multiple_on_array [entryC]) initial_world = (Normal tt, w1)
          ∧ Js.prop (ConfigService.getConfig w1) "logMode" = JStr "multiple"
          ∧ Js.prop (ConfigService.getConfig w1) "endpoint" = JStr "http://default-endpoint.com".
Proof.
  assert (ConfigService.validateConfig (multiple_on_array [entryC]) = Normal true) as Hv
    by by vm_compute.
  split; [exact Hv|].
  apply (proj1 (setConfig_switch_keeps_other_field (multiple_on_array [entryC])
                  initial_world Hv) "http://default-endpoint.com"); by vm_compute.
Defined.

(** ** The decorated call, from its first statement to its last *)

Section Invocation.
Context `{Host}.

(** The decorated method is the context selection, [logEntry], and the
    rest of the method run in the state [logEntry] left. *)
Lemma LogPath_as_steps (options : LogPathOptions) (className propertyKey : string)
    (originalMethod : Method) (this : Owner) (args : list JsVal) (w : World) :
  LogPath options className propertyKey originalMethod this args w
  = LogPath_after (ConfigService.getConfig w) (fst (LogPath_context options this w)) options
      className propertyKey originalMethod this args
      (logEntry (ConfigService.getConfig w) (fst (LogPath_context options this w))
         className propertyKey args (default info (o_logLevel options))
         (flag (o_isSensitive options)) (snd (LogPath_context options this w))).
Proof.
  unfold LogPath, LogPath_after.
  by destruct (LogPath_context options this w) as [context w1].
Qed.

Lemma LogPath_context_not_top_level (options : LogPathOptions) (this : Owner) (w : World) :
  flag (o_isTopLevel options) = false →
  LogPath_context options this w
  = (mkContext (uuidv4_nth (uuid_calls w)) (processId <$> contexts w !! this),
     mkWorld (config w)
       (<[this := mkContext (uuidv4_nth (uuid_calls w)) (processId <$> contexts w !! this)]>
          (contexts w))
       (S (uuid_calls w)) (clock_reads w) (effects w)).
Proof.
  intros Htop. unfold LogPath_context. rewrite Htop.
  by destruct (contexts w !! this).
Qed.

Lemma LogPath_context_is_top_level (options : LogPathOptions) (this : Owner) (w : World) :
  flag (o_isTopLevel options) = true →
  LogPath_context options this w
  = (mkContext (uuidv4_nth (uuid_calls w)) None,
     mkWorld (config w) (contexts w) (S (uuid_calls w)) (clock_reads w) (effects w)).
Proof. intros Htop. unfold LogPath_context. by rewrite Htop. Qed.

(** What the rest of a call that is not top-level does to the registry:
    nothing. *)
Lemma LogPath_after_contexts (c : gmap string JsVal) (context : ProcessContext)
    (options : LogPathOptions) (className propertyKey : string) (originalMethod : Method)
    (this : Owner) (args : list JsVal) (w2 : World) :
  flag (o_isTopLevel options) = false →
  contexts (snd (LogPath_after c context options className propertyKey originalMethod
                   this args w2))
  = contexts (snd (originalMethod this args w2)).
Proof.
  intros Htop. unfold LogPath_after, LogPath_cleanup. rewrite Htop.
  destruct (originalMethod this args w2) as [[v|e|p] w3]; simpl; [|done..].
  by rewrite logExit_contexts.
Qed.

Lemma logEntry_config c context className methodName args logLevel isSensitive w :
  config (logEntry c context className methodName args logLevel isSensitive w) = config w.
Proof. unfold logEntry. simpl. by rewrite (proj1 (sendLog_preserves _ _ _ _)). Qed.

(** C4: every decorated call that is not top-level draws a new identifier
    and makes a context of it whose parent is the identifier of the entry
    stored for the owner (no parent when none is stored); it stores this
    context for the owner, in place of the entry there was and leaving the
    other owners' entries alone, before the wrapped method runs; the rest
    of the call (the wrapped method, the Exit and Error records) runs with
    this context and removes nothing from the registry, so that after a
    wrapped method that leaves the owner's entry alone the entry stored for
    the owner is this context. *)
Theorem LogPath_child_context (options : LogPathOptions) (className propertyKey : string)
    (originalMethod : Method) (this : Owner) (args : list JsVal) (w : World) :
  flag (o_isTopLevel options) = false →
  let context := mkContext (uuidv4_nth (uuid_calls w)) (processId <$> contexts w !! this) in
  let started :=
    logEntry (ConfigService.getConfig w) context className propertyKey args
      (default info (o_logLevel options)) (flag (o_isSensitive options))
      (mkWorld (config w) (<[this := context]> (contexts w)) (S (uuid_calls w))
         (clock_reads w) (effects w)) in
  let call := LogPath options className propertyKey originalMethod this args w in
  (∀ prior, contexts w !! this = Some prior → parentId context = Some (processId prior))
  ∧ (contexts w !! this = None → parentId context = None)
  ∧ call = LogPath_after (ConfigService.getConfig w) context options className propertyKey
             originalMethod this args started
  ∧ contexts started !! this = Some context
  ∧ (∀ other, other ≠ this → contexts started !! other = contexts w !! other)
  ∧ uuid_calls started = S (uuid_calls w)
  ∧ contexts (snd call) = contexts (snd (originalMethod this args started))
  ∧ ((∀ w0, contexts (snd (originalMethod this args w0)) !! this = contexts w0 !! this) →
     contexts (snd call) !! this = Some context).
Proof.
  intros Htop. cbv zeta.
  assert (LogPath options className propertyKey originalMethod this args w
          = LogPath_after (ConfigService.getConfig w)
              (mkContext (uuidv4_nth (uuid_calls w)) (processId <$> contexts w !! this))
              options className propertyKey originalMethod this args
              (logEntry (ConfigService.getConfig w)
                 (mkContext (uuidv4_nth (uuid_calls w)) (processId <$> contexts w !! this))
                 className propertyKey args (default info (o_logLevel options))
                 (flag (o_isSensitive options))
                 (mkWorld (config w)
                    (<[this := mkContext (uuidv4_nth (uuid_calls w))
                                 (processId <$> contexts w !! this)]> (contexts w))
                    (S (uuid_calls w)) (clock_reads w) (effects w)))) as Hcall.
  { by rewrite LogPath_as_steps, (LogPath_context_not_top_level options this w Htop). }
  split; [by intros prior ->|]. split; [by intros ->|]. split; [exact Hcall|].
  rewrite Hcall, logEntry_contexts, logEntry_uuid_calls. simpl.
  split; [by rewrite lookup_insert_eq|].
  split; [intros other Hother; by rewrite lookup_insert_ne|].
  split; [done|].
  rewrite (LogPath_after_contexts _ _ _ _ _ _ _ _ _ Htop).
  split; [done|].
  intros Hframe. rewrite Hframe, logEntry_contexts. simpl. by rewrite lookup_insert_eq.
Qed.

(** C8: in every decorated call, the record handed to [sendLog] before the
    wrapped method runs is the Enter record of the call, and its [args]
    follow the option [isSensitive]: with [isSensitive: true] the record
    has no [args], the state the wrapped method starts in does not mention
    the arguments, and two calls that differ in their arguments only are
    the same call as far as the wrapped method makes no difference between
    them; with [isSensitive] false or unset the record has the arguments
    of the call as its [args]. *)
Theorem LogPath_enter_args (options : LogPathOptions) (className propertyKey : string)
    (originalMethod : Method) (this : Owner) (args : list JsVal) (w : World) :
  let context := fst (LogPath_context options this w) in
  let w1 := snd (LogPath_context options this w) in
  let logLevel := default info (o_logLevel options) in
  let enter (a : option (list JsVal)) : LogData :=
    mkLogData (processId context) (parentId context) logLevel className propertyKey Enter
      (clock_nth (clock_reads w1))
      (fst (message logLevel (processId context) className propertyKey Enter
              (parentId context) (snd (Date_now w1))))
      None a in
  let started (a : option (list JsVal)) : World :=
    snd (sendLog (ConfigService.getConfig w) (enter a) (LogLevel_str logLevel)
           (snd (message logLevel (processId context) className propertyKey Enter
                   (parentId context) (snd (Date_now w1))))) in
  let call (args0 : list JsVal) :=
    LogPath options className propertyKey originalMethod this args0 w in
  (o_isSensitive options = Some true →
   call args = LogPath_after (ConfigService.getConfig w) context options className
                 propertyKey originalMethod this args (started None)
   ∧ ((∀ args' w0, originalMethod this args' w0 = originalMethod this args w0) →
      ∀ args', call args' = call args))
  ∧ (o_isSensitive options = Some false ∨ o_isSensitive options = None →
     call args = LogPath_after (ConfigService.getConfig w) context options className
                   propertyKey originalMethod this args (started (Some args)))
  ∧ (∀ a, ld_args (enter a) = a
          ∧ effects (started a)
            = (effects w ++ if Js.truthy (Js.prop (ConfigService.getConfig w) "devMode")
                            then [ConsoleLog (printed (enter a))] else [])%list).
Proof.
  cbv zeta. split; [|split].
  - intros Hs.
    assert (∀ args0,
              LogPath options className propertyKey originalMethod this args0 w
              = LogPath_after (ConfigService.getConfig w) (fst (LogPath_context options this w))
                  options className propertyKey originalMethod this args0
                  (snd (sendLog (ConfigService.getConfig w)
                          (mkLogData (processId (fst (LogPath_context options this w)))
                             (parentId (fst (LogPath_context options this w)))
                             (default info (o_logLevel options)) className propertyKey Enter
                             (clock_nth (clock_reads (snd (LogPath_context options this w))))
                             (fst (message (default info (o_logLevel options))
                                     (processId (fst (LogPath_context options this w)))
                                     className propertyKey Enter
                                     (parentId (fst (LogPath_context options this w)))
                                     (snd (Date_now (snd (LogPath_context options this w))))))
                             None None)
                          (LogLevel_str (default info (o_logLevel options)))
                          (snd (message (default info (o_logLevel options))
                                  (processId (fst (LogPath_context options this w)))
                                  className propertyKey Enter
                                  (parentId (fst (LogPath_context options this w)))
                                  (snd (Date_now (snd (LogPath_context options this w))))))))
           ) as Hcall.
    { intros args0. rewrite LogPath_as_steps, Hs. f_equal. }
    split; [apply Hcall|].
    intros Hbody args'. rewrite !Hcall. unfold LogPath_after. by rewrite Hbody.
  - intros Hs. rewrite LogPath_as_steps. f_equal.
    by destruct Hs as [-> | ->].
  - intros a. split; [done|]. rewrite sendLog_effects. simpl.
    by rewrite (proj1 (proj2 (LogPath_context_frame options this w))).
Qed.

(** X16: a top-level call is not registered.  Its context has a new
    identifier and no parent, and it leaves the registry as it was before
    the wrapped method runs.  A decorated call that is not top-level, made
    on the same owner as the first thing the wrapped method does, draws the
    next identifier and gets for parent the entry stored for the owner
    before the top-level call (none on an owner without entry), not the
    top-level call. *)
Theorem LogPath_top_level_inner_parent (options inner : LogPathOptions)
    (className propertyKey innerKey : string) (originalMethod innerMethod : Method)
    (this : Owner) (args innerArgs : list JsVal) (w : World) :
  flag (o_isTopLevel options) = true →
  flag (o_isTopLevel inner) = false →
  let context := mkContext (uuidv4_nth (uuid_calls w)) None in
  let started :=
    logEntry (ConfigService.getConfig w) context className propertyKey args
      (default info (o_logLevel options)) (flag (o_isSensitive options))
      (mkWorld (config w) (contexts w) (S (uuid_calls w)) (clock_reads w) (effects w)) in
  let innerContext :=
    mkContext (uuidv4_nth (S (uuid_calls w))) (processId <$> contexts w !! this) in
  let innerStarted :=
    logEntry (ConfigService.getConfig w) innerContext className innerKey innerArgs
      (default info (o_logLevel inner)) (flag (o_isSensitive inner))
      (mkWorld (config started) (<[this := innerContext]> (contexts w))
         (S (S (uuid_calls w))) (clock_reads started) (effects started)) in
  LogPath options className propertyKey originalMethod this args w
  = LogPath_after (ConfigService.getConfig w) context options className propertyKey
      originalMethod this args started
  ∧ contexts started = contexts w
  ∧ LogPath inner className innerKey innerMethod this innerArgs started
    = LogPath_after (ConfigService.getConfig w) innerContext inner className innerKey
        innerMethod this innerArgs innerStarted
  ∧ contexts innerStarted !! this = Some innerContext.
Proof.
  intros Htop Hinner. cbv zeta.
  split; [by rewrite LogPath_as_steps, (LogPath_context_is_top_level options this w Htop)|].
  split; [by rewrite logEntry_contexts|].
  split.
  - rewrite LogPath_as_steps, (LogPath_context_not_top_level inner this _ Hinner).
    rewrite logEntry_contexts, logEntry_uuid_calls. simpl.
    unfold ConfigService.getConfig. by rewrite logEntry_config.
  - rewrite logEntry_contexts. simpl. by rewrite lookup_insert_eq.
Qed.

End Invocation.

(** A child call on an owner whose entry is "parent-id": the entry after
    the call is the new context, with that parent. *)
Lemma LogPath_child_context_witness :
  let w := set_contexts {[ 7%positive := mkContext "parent-id" None ]} initial_world in
  let call :=
    LogPath (H := Stub.host) child_debug "OrderService" "validateOrder" validateOrder
      7%positive [] w in
  flag (o_isTopLevel child_debug) = false
  ∧ (∀ w0, contexts (snd (validateOrder 7%positive [] w0)) !! 7%positive
           = contexts w0 !! 7%positive)
  ∧ contexts (snd call) !! 7%positive
    = Some (mkContext "00000000-0000-4000-8000-000000000000" (Some "parent-id")).
Proof.
  cbv zeta. split; [reflexivity|]. split; [by intros w0|].
  destruct (LogPath_child_context (H := Stub.host) child_debug "OrderService"
              "validateOrder" validateOrder 7%positive []
              (set_contexts {[ 7%positive := mkContext "parent-id" None ]} initial_world)
              eq_refl)
    as (_ & _ & _ & _ & _ & _ & _ & Hentry).
  rewrite (Hentry (fun w0 => eq_refl)). by vm_compute.
Defined.

(** Two sensitive calls with different card numbers are the same call, and
    the Enter line of a call with [devMode] on shows no argument. *)
Lemma LogPath_enter_args_witness :
  o_isSensitive sensitive = Some true
  ∧ (∀ args' w0, validateOrder 7%positive args' w0
                 = validateOrder 7%positive [JStr "4111-1111"] w0)
  ∧ LogPath (H := Stub.host) sensitive "OrderService" "pay" validateOrder 7%positive
      [JStr "0000-0000"] initial_world
    = LogPath (H := Stub.host) sensitive "OrderService" "pay" validateOrder 7%positive
        [JStr "4111-1111"] initial_world
  ∧ effects (snd (LogPath (H := Stub.host) sensitive "OrderService" "pay" validateOrder
                    7%positive [JStr "4111-1111"] initial_world))
    = [ConsoleLog
         ("2023-11-14T22:13:20.001Z [info: 00000000-0000-4000-8000-000000000000]: "
          +:+ "Enter OrderService.pay");
       ConsoleLog
         ("2023-11-14T22:13:20.003Z [info: 00000000-0000-4000-8000-000000000000]: "
          +:+ "Exit OrderService.pay")].
Proof.
  split; [reflexivity|]. split; [by intros args' w0|].
  destruct (LogPath_enter_args (H := Stub.host) sensitive "OrderService" "pay"
              validateOrder 7%positive [JStr "4111-1111"] initial_world)
    as (Hsensitive & _ & _).
  destruct (Hsensitive eq_refl) as [Hcall Hsame].
  split; [exact (Hsame (fun _ _ => eq_refl) [JStr "0000-0000"])|].
  rewrite Hcall. by vm_compute.
Defined.

(** A child call made inside a top-level call on an owner without entry has
    no parent. *)
Lemma LogPath_top_level_inner_parent_witness :
  let started :=
    logEntry (H := Stub.host) DEFAULT_CONFIG
      (mkContext "00000000-0000-4000-8000-000000000000" None)
      "OrderService" "processOrder" [] info false (mkWorld DEFAULT_CONFIG ∅ 1 0 []) in
  flag (o_isTopLevel top_level_info) = true
  ∧ flag (o_isTopLevel child_debug) = false
  ∧ contexts started = contexts initial_world
  ∧ contexts (snd (LogPath (H := Stub.host) child_debug "OrderService" "validateOrder"
                     validateOrder 7%positive [] started)) !! 7%positive
    = Some (mkContext "00000000-0000-4000-8000-000000000001" None).
Proof.
  cbv zeta. split; [reflexivity|]. split; [reflexivity|].
  destruct (LogPath_top_level_inner_parent (H := Stub.host) top_level_info child_debug
              "OrderService" "processOrder" "validateOrder" validateOrder validateOrder
              7%positive [] [] initial_world eq_refl eq_refl)
    as (_ & Hreg & Hinner & _).
  split; [exact Hreg|].
  etrans; [exact (f_equal (fun r => contexts (snd r) !! 7%positive) Hinner)|].
  by vm_compute.
Defined.
